(** * Khmer text summarization backend: extractive summarizer and HTTP boundary

    A shallow embedding of [backend/model_handler.py] (class [KhmerSummarizer])
    and of the [/api/summarize] handler of [backend/app.py].

    Python values are modelled as follows.
    - [str] is a sequence of Unicode code points ([list N]); [len] counts code
      points, comparison is lexicographic on code points.
    - [int] is [Z] (unbounded).
    - [float] is IEEE 754 binary64, through the Standard Library's executable
      specification [SpecFloat] with [prec = 53] and [emax = 1024].
    - a raised exception is the [Raise] branch of the result type [exc]. *)

From Stdlib Require Import List ZArith NArith PArith Lia Bool Arith.
From Stdlib Require Import Sorted Permutation.
From Stdlib Require Import Ascii String.
From Stdlib Require Import SpecFloat.
Import ListNotations.

Set Warnings "-register-all".

(** ** Exceptions *)

(** The subclasses of Python's [Exception] that the modelled code can meet. *)
Inductive pyexn : Type :=
| OverflowError
| TypeError
| ValueError
| AttributeError
| BadRequest
| RuntimeError.

Inductive exc (A : Type) : Type :=
| Ok (a : A)
| Raise (e : pyexn).

Arguments Ok {A} a.
Arguments Raise {A} e.

Definition bind {A B : Type} (c : exc A) (k : A -> exc B) : exc B :=
  match c with
  | Ok a => k a
  | Raise e => Raise e
  end.

Notation "x <- c ;; k" := (bind c (fun x => k))
  (at level 61, c at next level, right associativity).

(** [try: c except Exception: h] *)
Definition try_except {A : Type} (c : exc A) (h : pyexn -> exc A) : exc A :=
  match c with
  | Ok a => Ok a
  | Raise e => h e
  end.

(** ** Python strings *)

Definition char : Type := N.
Definition str : Type := list char.

(** Literals of this file are written as UTF-8 byte strings and decoded. *)
Definition byte_of (a : ascii) : N := N_of_ascii a.

Fixpoint utf8_decode_bytes (fuel : nat) (bs : list N) : str :=
  match fuel with
  | O => []
  | S fuel' =>
      match bs with
      | [] => []
      | b0 :: r0 =>
          if (b0 <? 128)%N then b0 :: utf8_decode_bytes fuel' r0
          else if (b0 <? 224)%N then
            match r0 with
            | b1 :: r1 =>
                ((b0 - 192) * 64 + (b1 - 128))%N :: utf8_decode_bytes fuel' r1
            | _ => []
            end
          else if (b0 <? 240)%N then
            match r0 with
            | b1 :: b2 :: r2 =>
                ((b0 - 224) * 4096 + (b1 - 128) * 64 + (b2 - 128))%N
                  :: utf8_decode_bytes fuel' r2
            | _ => []
            end
          else
            match r0 with
            | b1 :: b2 :: b3 :: r3 =>
                ((b0 - 240) * 262144 + (b1 - 128) * 4096
                 + (b2 - 128) * 64 + (b3 - 128))%N
                  :: utf8_decode_bytes fuel' r3
            | _ => []
            end
      end
  end.

Definition u (s : string) : str :=
  let bs := map byte_of (list_ascii_of_string s) in
  utf8_decode_bytes (List.length bs) bs.

(** [len(s)] *)
Definition len (s : str) : Z := Z.of_nat (List.length s).

(** Truth value of a string: [bool(s)] is [len(s) != 0]. *)
Definition str_truthy (s : str) : bool :=
  match s with
  | [] => false
  | _ :: _ => true
  end.

(** [str.isspace] on one code point: the characters CPython lists as
    whitespace. *)
Definition isspace (c : char) : bool :=
  ((9 <=? c) && (c <=? 13)
   || (28 <=? c) && (c <=? 32)
   || (c =? 133) || (c =? 160) || (c =? 5760)
   || (8192 <=? c) && (c <=? 8202)
   || (c =? 8232) || (c =? 8233) || (c =? 8239) || (c =? 8287)
   || (c =? 12288))%N.

Fixpoint lstrip (s : str) : str :=
  match s with
  | [] => []
  | c :: s' => if isspace c then lstrip s' else s
  end.

Definition rstrip (s : str) : str := rev (lstrip (rev s)).

(** [s.strip()] *)
Definition strip (s : str) : str := rstrip (lstrip s).

(** [s[:n]] for an [int] bound [n]: a negative bound counts from the end and
    is clamped at the start; a bound past the end is clamped at the end. *)
Definition slice_to (s : str) (n : Z) : str :=
  if (n <? 0)%Z then firstn (Z.to_nat (Z.max 0 (len s + n))) s
  else firstn (Z.to_nat n) s.

(** [sep.join(parts)] *)
Fixpoint join (sep : str) (parts : list str) : str :=
  match parts with
  | [] => []
  | [p] => p
  | p :: rest => p ++ sep ++ join sep rest
  end.

Fixpoint str_eqb (a b : str) : bool :=
  match a, b with
  | [], [] => true
  | x :: a', y :: b' => (x =? y)%N && str_eqb a' b'
  | _, _ => false
  end.

(** [a < b] on strings: lexicographic on code points, a proper prefix is
    smaller. *)
Fixpoint str_ltb (a b : str) : bool :=
  match a, b with
  | _, [] => false
  | [], _ :: _ => true
  | x :: a', y :: b' => if (x =? y)%N then str_ltb a' b' else (x <? y)%N
  end.

(** ** Python floats *)

Definition prec : Z := 53.
Definition emax : Z := 1024.

Definition float : Type := spec_float.

(** Nearest binary64 value of an integer, ties to even; an integer beyond the
    range gives an infinity here. *)
Definition Z2F (z : Z) : float := binary_normalize prec emax z 0 false.

(** Conversion of an [int] operand in mixed [int]/[float] arithmetic:
    [OverflowError: int too large to convert to float] beyond the range. *)
Definition float_of_int (z : Z) : exc float :=
  match Z2F z with
  | S754_infinity _ => Raise OverflowError
  | f => Ok f
  end.

(** Conversion of a size ([len] of a string or a list, or an index below
    it).  Sizes are [Py_ssize_t] values, below [2^63], where the conversion
    cannot overflow. *)
Definition float_of_size (n : nat) : float := Z2F (Z.of_nat n).

Definition fmul : float -> float -> float := SFmul prec emax.
Definition fdiv : float -> float -> float := SFdiv prec emax.
Definition fsub : float -> float -> float := SFsub prec emax.

(** The literals [0.1], [0.8] and the float of the literal [1]. *)
Definition f0_1 : float := S754_finite false 7205759403792794 (-56).
Definition f0_8 : float := S754_finite false 7205759403792794 (-53).
Definition f1 : float := S754_finite false 4503599627370496 (-52).

(** [z >= f] for an [int] [z] and a [float] [f]; CPython compares the two
    exactly, without rounding [z]. *)
Definition int_ge_float (z : Z) (f : float) : bool :=
  match f with
  | S754_nan => false
  | S754_infinity s => s
  | S754_zero _ => (0 <=? z)%Z
  | S754_finite s m e =>
      let sm := if s then Z.neg m else Z.pos m in
      if (0 <=? e)%Z then (sm * 2 ^ e <=? z)%Z
      else (sm <=? z * 2 ^ (- e))%Z
  end.

(** ** [KhmerSummarizer._extractive_summarize] *)

(** The two delimiters of the pattern [[។៕]]: U+17D4 and U+17D5. *)
Definition KHAN : char := 6100%N.
Definition BARIYOOSAN : char := 6101%N.

Definition is_delimiter (c : char) : bool :=
  ((c =? KHAN) || (c =? BARIYOOSAN))%N.

(** [re.split(r'[។៕]', text)]: the fragments between the delimiters, empty
    ones included. *)
Fixpoint re_split (text : str) : list str :=
  match text with
  | [] => [[]]
  | c :: rest =>
      if is_delimiter c then [] :: re_split rest
      else
        match re_split rest with
        | [] => [[c]]
        | frag :: frags => (c :: frag) :: frags
        end
  end.

(** [[s.strip() for s in sentences if s.strip()]] *)
Fixpoint strip_nonempty (frags : list str) : list str :=
  match frags with
  | [] => []
  | s :: rest =>
      if str_truthy (strip s) then strip s :: strip_nonempty rest
      else strip_nonempty rest
  end.

Definition sentences_of (text : str) : list str :=
  strip_nonempty (re_split text).

(** [enumerate(l)] *)
Definition enumerate {A : Type} (l : list A) : list (nat * A) :=
  combine (seq 0 (List.length l)) l.

(** A tuple [(score, sent, i)]. *)
Definition scored : Type := (float * str * nat)%type.

Definition score_of (s : scored) : float := fst (fst s).
Definition sent_of (s : scored) : str := snd (fst s).
Definition index_of (s : scored) : nat := snd s.

(** The scoring loop: [count] is [len(sentences)], [acc] is
    [scored_sentences]. *)
Fixpoint scoring_loop (count : nat) (items : list (nat * str))
  (acc : list scored) : list scored :=
  match items with
  | [] => acc
  | (i, sent) :: rest =>
      let score :=
        fmul (float_of_size (List.length sent))
          (fsub f1 (fdiv (fmul (float_of_size i) f0_1) (float_of_size count)))
      in
      scoring_loop count rest (acc ++ [(score, sent, i)])
  end.

Definition scored_sentences (sentences : list str) : list scored :=
  scoring_loop (List.length sentences) (enumerate sentences) [].

(** [a < b] on the tuples: the first component on which the two differ
    (by [==]) decides. *)
Definition tuple_ltb (a b : scored) : bool :=
  let '(sa, ca, ia) := a in
  let '(sb, cb, ib) := b in
  if negb (SFeqb sa sb) then SFltb sa sb
  else if negb (str_eqb ca cb) then str_ltb ca cb
  else (ia <? ib)%nat.

(** [l.sort(reverse=True)]: a stable sort into descending order that only
    asks [<]; elements that are not ordered keep their order. *)
Fixpoint insert_desc (x : scored) (l : list scored) : list scored :=
  match l with
  | [] => [x]
  | y :: l' => if tuple_ltb x y then y :: insert_desc x l' else x :: l
  end.

Fixpoint sort_reverse (l : list scored) : list scored :=
  match l with
  | [] => []
  | x :: l' => insert_desc x (sort_reverse l')
  end.

(** State of the selection loop. *)
Record selection : Type := mkSelection {
  summary_parts : list (nat * str);
  current_length : Z
}.

Definition selection0 : selection := mkSelection [] 0.

(** One iteration of the selection loop; the boolean is [true] on [break]. *)
Definition select_step (max_length : Z) (st : selection) (item : scored)
  : exc (selection * bool) :=
  let '(_, sent, original_idx) := item in
  let sent_with_delimiter := sent ++ [KHAN] in
  let st' :=
    if (current_length st + len sent_with_delimiter <=? max_length)%Z
    then mkSelection (summary_parts st ++ [(original_idx, sent_with_delimiter)])
                     (current_length st + len sent_with_delimiter)
    else st in
  m <- float_of_int max_length ;;
  Ok (st', int_ge_float (current_length st') (fmul m f0_8)).

Fixpoint select_loop (max_length : Z) (items : list scored) (st : selection)
  : exc selection :=
  match items with
  | [] => Ok st
  | item :: rest =>
      r <- select_step max_length st item ;;
      if snd r then Ok (fst r) else select_loop max_length rest (fst r)
  end.

(** [summary_parts.sort(key=lambda x: x[0])]: stable, ascending on the key. *)
Fixpoint insert_by_index (x : nat * str) (l : list (nat * str))
  : list (nat * str) :=
  match l with
  | [] => [x]
  | y :: l' =>
      if (fst y <? fst x)%nat then y :: insert_by_index x l' else x :: l
  end.

Fixpoint sort_by_index (l : list (nat * str)) : list (nat * str) :=
  match l with
  | [] => []
  | x :: l' => insert_by_index x (sort_by_index l')
  end.

Definition SPACE : char := 32%N.

(** The summarizer over a given implementation [sort] of
    [scored_sentences.sort(reverse=True)]. *)
Definition extractive_with (sort : list scored -> list scored)
  (text : str) (max_length : Z) : exc str :=
  let sentences := sentences_of text in
  match sentences with
  | [] => Ok (slice_to text max_length)
  | _ :: _ =>
      let sorted := sort (scored_sentences sentences) in
      st <- select_loop max_length sorted selection0 ;;
      let parts := sort_by_index (summary_parts st) in
      let summary := join [SPACE] (map snd parts) in
      Ok (if str_truthy summary then summary else slice_to text max_length)
  end.

Definition _extractive_summarize (text : str) (max_length : Z) : exc str :=
  extractive_with sort_reverse text max_length.

(** ** [KhmerSummarizer]: the facade *)

(** The operations of the [transformers] and [torch] libraries used by the
    neural path, each of which may raise.
    - [tokenizer_call tk text] is
      [tk(text, max_length=1024, truncation=True, return_tensors='pt').to(device)];
    - [model_generate m inputs max_length min_length] is
      [m.generate(inputs['input_ids'], max_length=..., min_length=...,
      num_beams=4, length_penalty=2.0, early_stopping=True,
      no_repeat_ngram_size=3)] under [torch.no_grad()];
    - [tokenizer_decode tk ids] is
      [tk.decode(ids[0], skip_special_tokens=True)]. *)
Record transformers : Type := mkTransformers {
  Tokenizer : Type;
  Model : Type;
  Encoding : Type;
  TokenIds : Type;
  tokenizer_call : Tokenizer -> str -> exc Encoding;
  model_generate : Model -> Encoding -> Z -> Z -> exc TokenIds;
  tokenizer_decode : Tokenizer -> TokenIds -> exc str
}.

Inductive device_kind : Type := Cpu | Cuda.

(** The attributes of a [KhmerSummarizer]; [None] is Python's [None]. *)
Record KhmerSummarizer (T : transformers) : Type := mkSummarizer {
  model : option (Model T);
  tokenizer : option (Tokenizer T);
  device : device_kind
}.

Arguments mkSummarizer {T} model tokenizer device.
Arguments model {T} self : rename.
Arguments tokenizer {T} self : rename.
Arguments device {T} self : rename.

(** Calling [self.tokenizer] or one of its methods: a [TypeError] or an
    [AttributeError] when the attribute is [None]. *)
Definition with_tokenizer {T : transformers} {A : Type}
  (self : KhmerSummarizer T) (absent : pyexn) (k : Tokenizer T -> exc A)
  : exc A :=
  match tokenizer self with
  | None => Raise absent
  | Some tk => k tk
  end.

(** The body of the [try] of [summarize]. *)
Definition neural_summarize {T : transformers} (self : KhmerSummarizer T)
  (m : Model T) (text : str) (max_length min_length : Z) : exc str :=
  inputs <- with_tokenizer self TypeError (fun tk => tokenizer_call T tk text) ;;
  summary_ids <- model_generate T m inputs max_length min_length ;;
  with_tokenizer self AttributeError
    (fun tk => tokenizer_decode T tk summary_ids).

Definition summarize {T : transformers} (self : KhmerSummarizer T)
  (text : str) (max_length min_length : Z) : exc str :=
  match model self with
  | None => _extractive_summarize text max_length
  | Some m =>
      try_except (neural_summarize self m text max_length min_length)
        (fun _ => _extractive_summarize text max_length)
  end.

Definition is_loaded {T : transformers} (self : KhmerSummarizer T) : bool :=
  match model self with
  | None => false
  | Some _ => true
  end.

(** ** [app.py]: the [/api/summarize] handler *)

(** A decoded JSON document, as [request.get_json] returns it; a [dict] is
    kept as its list of items, with distinct keys. *)
Inductive json : Type :=
| JNull
| JBool (b : bool)
| JInt (z : Z)
| JFloat (f : float)
| JStr (s : str)
| JList (l : list json)
| JDict (items : list (str * json)).

Fixpoint lookup (key : str) (items : list (str * json)) : option json :=
  match items with
  | [] => None
  | (k, v) :: rest => if str_eqb k key then Some v else lookup key rest
  end.

(** [data.get(key, default)]: only a [dict] has the method. *)
Definition json_get (data : json) (key : str) (default : json) : exc json :=
  match data with
  | JDict items =>
      match lookup key items with
      | Some v => Ok v
      | None => Ok default
      end
  | _ => Raise AttributeError
  end.

(** Truth value of a document. *)
Definition json_truthy (v : json) : bool :=
  match v with
  | JNull => false
  | JBool b => b
  | JInt z => negb (z =? 0)%Z
  | JFloat f =>
      match f with
      | S754_zero _ => false
      | _ => true
      end
  | JStr s => str_truthy s
  | JList l =>
      match l with
      | [] => false
      | _ :: _ => true
      end
  | JDict items =>
      match items with
      | [] => false
      | _ :: _ => true
      end
  end.

(** [int(f)] for a float: truncation towards zero. *)
Definition int_of_float (f : float) : exc Z :=
  match f with
  | S754_nan => Raise ValueError
  | S754_infinity _ => Raise OverflowError
  | S754_zero _ => Ok 0%Z
  | S754_finite s m e =>
      let a := if (0 <=? e)%Z then (Z.pos m * 2 ^ e)%Z
               else (Z.pos m / 2 ^ (- e))%Z in
      Ok (if s then (- a)%Z else a)
  end.

(** [int(v)]; [int_of_str] is the builtin's parser of integer literals. *)
Definition py_int (int_of_str : str -> exc Z) (v : json) : exc Z :=
  match v with
  | JInt z => Ok z
  | JBool b => Ok (if b then 1 else 0)%Z
  | JFloat f => int_of_float f
  | JStr s => int_of_str s
  | JNull | JList _ | JDict _ => Raise TypeError
  end.

(** The body of a response ([jsonify] of a dict). *)
Inductive body : Type :=
| ErrorBody (message : str)
| FailureBody (e : pyexn)
| SummaryBody (summary : str) (original_length summary_length : Z).

Record response : Type := mkResponse {
  status : Z;
  payload : body
}.

Definition NO_TEXT : str := u "គ្មានអត្ថបទ (No text provided)".
Definition TOO_SHORT : str := u "អត្ថបទខ្លីពេក (Text too short)".

(** A request, as far as the handler reads it: the outcome of
    [request.get_json(force=True)]. *)
Record request : Type := mkRequest {
  get_json : exc json
}.

(** The arguments of one call of [summarizer.summarize]. *)
Definition call : Type := (str * Z * Z)%type.

(** The handler up to the call of the summarizer: a response returned early,
    or the arguments of the call.  Only a string has the method [strip]:
    [text.strip()] on another truthy document is an [AttributeError]. *)
Definition prepare (int_of_str : str -> exc Z) (req : request)
  : exc (response + call) :=
  data <- get_json req ;;
  text <- json_get data (u "text") (JStr []) ;;
  max_length_v <- json_get data (u "max_length") (JInt 150) ;;
  max_length <- py_int int_of_str max_length_v ;;
  min_length_v <- json_get data (u "min_length") (JInt 50) ;;
  min_length <- py_int int_of_str min_length_v ;;
  if negb (json_truthy text) then
    Ok (inl (mkResponse 400 (ErrorBody NO_TEXT)))
  else
    match text with
    | JStr s =>
        if (len (strip s) <? 10)%Z then
          Ok (inl (mkResponse 400 (ErrorBody TOO_SHORT)))
        else Ok (inr (s, max_length, min_length))
    | _ => Raise AttributeError
    end.

(** The handler of [POST /api/summarize] on the global [summarizer]: the
    response, and the calls of [summarizer.summarize] made on the way. *)
Definition api_summarize {T : transformers} (summarizer : KhmerSummarizer T)
  (int_of_str : str -> exc Z) (req : request) : response * list call :=
  match prepare int_of_str req with
  | Raise e => (mkResponse 500 (FailureBody e), [])
  | Ok (inl early) => (early, [])
  | Ok (inr (text, max_length, min_length)) =>
      match summarize summarizer text max_length min_length with
      | Ok summary =>
          (mkResponse 200 (SummaryBody summary (len text) (len summary)),
           [(text, max_length, min_length)])
      | Raise e =>
          (mkResponse 500 (FailureBody e), [(text, max_length, min_length)])
      end
  end.

(** ** [KhmerSummarizer.__init__] and [load_model] *)

(** What the constructor reads of its surroundings: [torch.cuda], the file
    system and the loaders of the library, each of which may raise.
    [model_to m d] is [m.to(d)] and [model_eval m] is [m.eval()]; both work
    on the module in place. *)
Record runtime (T : transformers) : Type := mkRuntime {
  cuda_is_available : bool;
  path_exists : str -> bool;
  listdir : str -> exc (list str);
  tokenizer_from_pretrained : str -> exc (Tokenizer T);
  model_from_pretrained : str -> exc (Model T);
  model_to : Model T -> device_kind -> exc unit;
  model_eval : Model T -> exc unit
}.

Arguments cuda_is_available {T} r.
Arguments path_exists {T} r path.
Arguments listdir {T} r path.
Arguments tokenizer_from_pretrained {T} r path.
Arguments model_from_pretrained {T} r path.
Arguments model_to {T} r m d.
Arguments model_eval {T} r m.

(** A method body: it may assign attributes of [self] and may raise; the
    assignments made before an exception stay. *)
Definition method (T : transformers) (A : Type) : Type :=
  KhmerSummarizer T -> exc A * KhmerSummarizer T.

Definition mret {T : transformers} {A : Type} (a : A) : method T A :=
  fun self => (Ok a, self).

Definition mbind {T : transformers} {A B : Type}
  (c : method T A) (k : A -> method T B) : method T B :=
  fun self =>
    match c self with
    | (Ok a, self') => k a self'
    | (Raise e, self') => (Raise e, self')
    end.

Notation "x <~ c ;; k" := (mbind c (fun x => k))
  (at level 61, c at next level, right associativity).

(** A call that does not touch [self]. *)
Definition mcall {T : transformers} {A : Type} (c : exc A) : method T A :=
  fun self => (c, self).

(** [self.tokenizer = tk] and [self.model = m]. *)
Definition set_tokenizer {T : transformers} (tk : Tokenizer T)
  : method T unit :=
  fun self => (Ok tt, mkSummarizer (model self) (Some tk) (device self)).

Definition set_model {T : transformers} (m : Model T) : method T unit :=
  fun self => (Ok tt, mkSummarizer (Some m) (tokenizer self) (device self)).

(** [self.model.<method>(...)]: an [AttributeError] on [None]. *)
Definition on_model {T : transformers} {A : Type}
  (k : KhmerSummarizer T -> Model T -> exc A) : method T A :=
  fun self =>
    match model self with
    | Some m => (k self m, self)
    | None => (Raise AttributeError, self)
    end.

(** [try: c except Exception as e: print(...)] *)
Definition try_print {T : transformers} (c : method T unit) : method T unit :=
  fun self => (Ok tt, snd (c self)).

Definition WEIGHT_FILES : list str :=
  [u "pytorch_model.bin"; u "model.safetensors"; u "tf_model.h5"].

(** [f in files] *)
Definition str_in (f : str) (files : list str) : bool :=
  existsb (str_eqb f) files.

(** [any(f in files for f in [...])] *)
Definition has_weights (files : list str) : bool :=
  existsb (fun f => str_in f files) WEIGHT_FILES.

Definition load_model {T : transformers} (R : runtime T) (model_path : str)
  : method T unit :=
  try_print
    (if path_exists R model_path then
       files <~ mcall (listdir R model_path) ;;
       _ <~ try_print
              (tk <~ mcall (tokenizer_from_pretrained R model_path) ;;
               set_tokenizer tk) ;;
       if negb (has_weights files) then mret tt
       else
         try_print
           (m <~ mcall (model_from_pretrained R model_path) ;;
            _ <~ set_model m ;;
            _ <~ on_model (fun self m' => model_to R m' (device self)) ;;
            on_model (fun _ m' => model_eval R m'))
     else mret tt).

(** The constructor: the outcome of the body and the object built.
    [model_path] is [None] or a string. *)
Definition __init__ {T : transformers} (R : runtime T)
  (model_path : option str) : exc unit * KhmerSummarizer T :=
  let self :=
    mkSummarizer None None (if cuda_is_available R then Cuda else Cpu) in
  try_print
    (match model_path with
     | Some path =>
         if str_truthy path && path_exists R path then load_model R path
         else mret tt
     | None => mret tt
     end) self.

(** ** [app.py]: the global summarizer and [/api/health] *)

Definition MODEL_PATH : str := u "./models/khmer_summarization_model".

(** [summarizer = KhmerSummarizer(model_path=...)] *)
Definition app_summarizer {T : transformers} (R : runtime T)
  : KhmerSummarizer T :=
  snd (__init__ R (Some MODEL_PATH)).

Record health_report : Type := mkHealth {
  health_status : str;
  model_loaded : bool;
  tokenizer_loaded : bool
}.

(** The handler of [GET /api/health]: the status code and the body. *)
Definition api_health {T : transformers} (summarizer : KhmerSummarizer T)
  : Z * health_report :=
  (200%Z,
   mkHealth (u "ok") (is_loaded summarizer)
     (match tokenizer summarizer with
      | Some _ => true
      | None => false
      end)).

(** ** Vocabulary of the statements *)

(** Classes of floats. *)
Definition is_nan (f : float) : bool :=
  match f with
  | S754_nan => true
  | _ => false
  end.

Definition is_finite (f : float) : bool :=
  match f with
  | S754_finite _ _ _ => true
  | _ => false
  end.

Definition finite_or_zero (f : float) : bool :=
  match f with
  | S754_finite _ _ _ | S754_zero _ => true
  | _ => false
  end.

(** A key on which [SFcompare] is the lexicographic comparison of integers,
    for floats that are numbers. *)
Definition fkey (f : float) : Z * Z * Z :=
  match f with
  | S754_zero _ => (0, 0, 0)%Z
  | S754_infinity s => ((if s then -2 else 2), 0, 0)%Z
  | S754_nan => (0, 0, 0)%Z
  | S754_finite s m e =>
      if s then (-1, - e, Z.neg m)%Z else (1, e, Z.pos m)%Z
  end.

Definition lex3 (a b : Z * Z * Z) : comparison :=
  match (fst (fst a) ?= fst (fst b))%Z with
  | Eq =>
      match (snd (fst a) ?= snd (fst b))%Z with
      | Eq => (snd a ?= snd b)%Z
      | c => c
      end
  | c => c
  end.

(** The largest size of a Python object, [sys.maxsize] on a 64-bit build:
    no string is longer. *)
Definition sys_maxsize : Z := 2 ^ 63 - 1.

(** The value the scoring loop computes for a sentence of [size] characters
    at position [i] among [count] sentences:
    [size * (1 - i * 0.1 / count)], evaluated in binary64 from the inside
    out. *)
Definition score_formula (size i count : nat) : float :=
  fmul (float_of_size size)
    (fsub f1 (fdiv (fmul (float_of_size i) f0_1) (float_of_size count))).

Definition scored_at (count : nat) (p : nat * str) : scored :=
  (score_formula (List.length (snd p)) (fst p) count, snd p, fst p).

(** Strictly descending order of the tuples. *)
Definition tuple_gt (a b : scored) : Prop := tuple_ltb b a = true.

(** What a sort into descending order promises of an element [a] placed
    before an element [b]: [a] is not smaller. *)
Definition not_lt (a b : scored) : Prop := tuple_ltb a b = false.

Definition comparable (a b : scored) : Prop :=
  tuple_ltb a b = true \/ tuple_ltb b a = true.

(** A list of tuples that [<] arranges in a line: every score is a number
    and the indices are pairwise distinct. *)
Definition orderable (l : list scored) : Prop :=
  Forall (fun a => is_nan (score_of a) = false) l
  /\ NoDup (map index_of l).

(** The entry of [summary_parts] made for an accepted tuple. *)
Definition render (item : scored) : nat * str :=
  (index_of item, sent_of item ++ [KHAN]).

(** Sum of the lengths of the rendered forms. *)
Fixpoint total_length (parts : list (nat * str)) : Z :=
  match parts with
  | [] => 0
  | p :: rest => len (snd p) + total_length rest
  end.

(** The state after the [if] of one iteration. *)
Definition accept (max_length : Z) (st : selection) (item : scored)
  : selection :=
  if (current_length st + (len (sent_of item) + 1) <=? max_length)%Z
  then mkSelection (summary_parts st ++ [render item])
                   (current_length st + (len (sent_of item) + 1))
  else st.

(** A sentence fits: its rendered form is within [max_length]. *)
Definition fits (max_length : Z) (sent : str) : Prop :=
  (len sent + 1 <= max_length)%Z.

Definition index_lt (a b : nat * str) : Prop := (fst a < fst b)%nat.

(** Subsequences: some elements, in their order. *)
Inductive subseq {A : Type} : list A -> list A -> Prop :=
| subseq_nil : subseq [] []
| subseq_skip (x : A) (l1 l2 : list A) : subseq l1 l2 -> subseq l1 (x :: l2)
| subseq_take (x : A) (l1 l2 : list A) :
    subseq l1 l2 -> subseq (x :: l1) (x :: l2).

(** The value [_extractive_summarize] returns from the state the selection
    loop ends in. *)
Definition result_of (text : str) (max_length : Z) (st : selection) : str :=
  match summary_parts st with
  | [] => slice_to text max_length
  | _ :: _ => join [SPACE] (map snd (sort_by_index (summary_parts st)))
  end.

(** The value [data.get(key, default)] finds in the items of a [dict]. *)
Definition field (items : list (str * json)) (key : str) (default : json)
  : json :=
  match lookup key items with
  | Some v => v
  | None => default
  end.

Definition is_str (v : json) : bool :=
  match v with
  | JStr _ => true
  | _ => false
  end.

(** ** Instances for the examples *)

(** A library in which every call of the neural path fails. *)
Definition broken_transformers : transformers :=
  mkTransformers unit unit unit unit
    (fun _ _ => Raise RuntimeError)
    (fun _ _ _ _ => Raise RuntimeError)
    (fun _ _ => Raise RuntimeError).

(** A library whose model repeats its input. *)
Definition echo_transformers : transformers :=
  mkTransformers unit unit str str
    (fun _ text => Ok text)
    (fun _ inputs _ _ => Ok inputs)
    (fun _ ids => Ok ids).

(** A parser of unsigned decimal literals, standing for the builtin [int] on
    strings in the examples (the builtin accepts more). *)
Fixpoint digits_value (acc : Z) (s : str) : exc Z :=
  match s with
  | [] => Ok acc
  | c :: s' =>
      if ((48 <=? c) && (c <=? 57))%N
      then digits_value (10 * acc + Z.of_N (c - 48)) s'
      else Raise ValueError
  end.

Definition int_of_digits (s : str) : exc Z :=
  match s with
  | [] => Raise ValueError
  | _ :: _ => digits_value 0 s
  end.


(** A directory with a tokenizer and no weights. *)
Definition tokenizer_only_runtime : runtime echo_transformers :=
  mkRuntime echo_transformers true
    (fun path => str_eqb path MODEL_PATH)
    (fun _ => Ok [u "tokenizer.json"; u "config.json"])
    (fun _ => Ok tt)
    (fun _ => Ok tt)
    (fun _ _ => Ok tt)
    (fun _ => Ok tt).

(** * Properties *)

(** ** Binary64 rounding *)

Lemma digits2_pos_log2 (p : positive) :
  Z.pos (digits2_pos p) = (Z.log2 (Z.pos p) + 1)%Z.
Proof.
  induction p as [p IH | p IH |]; simpl digits2_pos.
  - rewrite Pos2Z.inj_succ, IH.
    change (Z.pos p~1) with (2 * Z.pos p + 1)%Z.
    rewrite Z.log2_succ_double by lia. lia.
  - rewrite Pos2Z.inj_succ, IH.
    change (Z.pos p~0) with (2 * Z.pos p)%Z.
    rewrite Z.log2_double by lia. lia.
  - reflexivity.
Qed.

Lemma digits2_pos_mono (p q : positive) :
  (p <= q)%positive -> (Z.pos (digits2_pos p) <= Z.pos (digits2_pos q))%Z.
Proof.
  intros H. rewrite !digits2_pos_log2.
  apply Z.add_le_mono_r, Z.log2_le_mono. lia.
Qed.

Lemma digits2_pos_succ (p : positive) :
  (Z.pos (digits2_pos p) <= Z.pos (digits2_pos (Pos.succ p))
   <= Z.pos (digits2_pos p) + 1)%Z.
Proof.
  split.
  - apply digits2_pos_mono. lia.
  - rewrite !digits2_pos_log2, Pos2Z.inj_succ.
    pose proof (Z.log2_succ_le (Z.pos p)). lia.
Qed.

Lemma digits2_pos_iter_xO (d p : positive) :
  Z.pos (digits2_pos (Pos.iter xO p d))
  = (Z.pos (digits2_pos p) + Z.pos d)%Z.
Proof.
  revert p. induction d using Pos.peano_ind; intros p.
  - simpl. lia.
  - rewrite Pos.iter_succ. simpl digits2_pos.
    rewrite Pos2Z.inj_succ, IHd. lia.
Qed.

(** Shifting a positive mantissa right by fewer places than it has digits
    leaves a positive mantissa, with that many digits fewer. *)
Lemma shr_1_digits (r : shr_record) (p : positive) :
  shr_m r = Z.pos p -> (1 < Z.pos (digits2_pos p))%Z ->
  exists q, shr_m (shr_1 r) = Z.pos q
            /\ Z.pos (digits2_pos q) = (Z.pos (digits2_pos p) - 1)%Z.
Proof.
  destruct r as [m rb sb]; simpl shr_m. intros -> H.
  destruct p as [q | q |]; simpl digits2_pos in *;
    try rewrite Pos2Z.inj_succ in *.
  - exists q. split; [reflexivity | lia].
  - exists q. split; [reflexivity | lia].
  - lia.
Qed.

Lemma iter_shr_1_digits (n : positive) :
  forall (r : shr_record) (p : positive),
    shr_m r = Z.pos p -> (Z.pos n < Z.pos (digits2_pos p))%Z ->
    exists q, shr_m (iter_pos shr_1 n r) = Z.pos q
              /\ Z.pos (digits2_pos q) = (Z.pos (digits2_pos p) - Z.pos n)%Z.
Proof.
  induction n as [n IH | n IH |]; intros r p Hr Hn; simpl iter_pos;
    [rewrite Pos2Z.inj_xI in Hn | rewrite Pos2Z.inj_xO in Hn |].
  - destruct (shr_1_digits r p Hr) as (q1 & H1 & D1); [lia |].
    destruct (IH _ _ H1) as (q2 & H2 & D2); [lia |].
    destruct (IH _ _ H2) as (q3 & H3 & D3); [lia |].
    exists q3. split; [exact H3 | lia].
  - destruct (IH _ _ Hr) as (q2 & H2 & D2); [lia |].
    destruct (IH _ _ H2) as (q3 & H3 & D3); [lia |].
    exists q3. split; [exact H3 | lia].
  - apply (shr_1_digits r p); [exact Hr | lia].
Qed.

Lemma shr_record_of_loc_m (m : Z) (l : location) :
  shr_m (shr_record_of_loc m l) = m.
Proof. destruct l as [| []]; reflexivity. Qed.

Lemma fexp_eq (x : Z) : fexp prec emax x = Z.max (x - 53) (-1074).
Proof. reflexivity. Qed.

Lemma shr_fexp_pos (p : positive) (e : Z) (l : location) :
  (-1074 < Z.pos (digits2_pos p) + e)%Z ->
  exists r q,
    shr_fexp prec emax (Z.pos p) e l
    = (r, Z.max e (fexp prec emax (Z.pos (digits2_pos p) + e)))
    /\ shr_m r = Z.pos q
    /\ (Z.pos (digits2_pos q) + Z.max e (fexp prec emax (Z.pos (digits2_pos p) + e))
        = Z.pos (digits2_pos p) + e)%Z.
Proof.
  intros H. unfold shr_fexp, shr. simpl Zdigits2.
  rewrite fexp_eq.
  set (d := Z.pos (digits2_pos p)) in *.
  destruct (Z.max (d + e - 53) (-1074) - e)%Z as [| k | k] eqn:E.
  - exists (shr_record_of_loc (Z.pos p) l), p.
    rewrite shr_record_of_loc_m. repeat split; [f_equal; lia | lia].
  - destruct (iter_shr_1_digits k (shr_record_of_loc (Z.pos p) l) p)
      as (q & Hq & Dq).
    + apply shr_record_of_loc_m.
    + fold d. lia.
    + exists (iter_pos shr_1 k (shr_record_of_loc (Z.pos p) l)), q.
      fold d in Dq. repeat split; [f_equal; lia | exact Hq | lia].
  - exists (shr_record_of_loc (Z.pos p) l), p.
    rewrite shr_record_of_loc_m. repeat split; [f_equal; lia | lia].
Qed.

Lemma round_nearest_even_pos (q : positive) (l : location) :
  exists q', round_nearest_even (Z.pos q) l = Z.pos q'
    /\ (Z.pos (digits2_pos q) <= Z.pos (digits2_pos q')
        <= Z.pos (digits2_pos q) + 1)%Z.
Proof.
  pose proof (digits2_pos_succ q) as S.
  assert (Hs : (Z.pos q + 1 = Z.pos (Pos.succ q))%Z) by lia.
  unfold round_nearest_even.
  destruct l as [| [ | | ]]; try (exists q; split; [reflexivity | lia]).
  - destruct (Z.even (Z.pos q)).
    + exists q; split; [reflexivity | lia].
    + exists (Pos.succ q); split; [exact Hs | exact S].
  - exists (Pos.succ q); split; [exact Hs | exact S].
Qed.

Lemma binary_round_aux_pos (s : bool) (p : positive) (e : Z) (l : location) :
  (-1074 < Z.pos (digits2_pos p) + e)%Z ->
  (exists m' e',
      binary_round_aux prec emax s (Z.pos p) e l = S754_finite s m' e'
      /\ (Z.pos (digits2_pos p) + e <= Z.pos (digits2_pos m') + e')%Z
      /\ (e' <= 971)%Z)
  \/ (binary_round_aux prec emax s (Z.pos p) e l = S754_infinity s
      /\ (971 < e \/ 1023 < Z.pos (digits2_pos p) + e)%Z).
Proof.
  intros H. unfold binary_round_aux.
  destruct (shr_fexp_pos p e l H) as (r1 & q1 & E1 & M1 & D1).
  rewrite E1, M1.
  set (e1 := Z.max e (fexp prec emax (Z.pos (digits2_pos p) + e))) in *.
  destruct (round_nearest_even_pos q1 (loc_of_shr_record r1))
    as (q2 & E2 & D2).
  rewrite E2.
  destruct (shr_fexp_pos q2 e1 loc_Exact) as (r3 & q3 & E3 & M3 & D3);
    [lia |].
  rewrite E3, M3.
  set (e3 := Z.max e1 (fexp prec emax (Z.pos (digits2_pos q2) + e1))) in *.
  change (emax - prec)%Z with 971%Z.
  destruct (Z.leb_spec e3 971) as [L | L].
  - left. exists q3, e3. repeat split; lia.
  - right. split; [reflexivity |].
    subst e3 e1. rewrite !fexp_eq in *. lia.
Qed.

Lemma iter_pos_invariant {A : Type} (P : A -> Prop) (f : A -> A) :
  (forall x, P x -> P (f x)) ->
  forall n x, P x -> P (iter_pos f n x).
Proof.
  intros Hf. induction n as [n IH | n IH |]; intros x Hx; simpl; auto.
Qed.

Lemma shr_1_nonneg (r : shr_record) :
  (0 <= shr_m r)%Z -> (0 <= shr_m (shr_1 r))%Z.
Proof.
  destruct r as [m rb sb]. simpl shr_m at 1. intros H.
  destruct m as [| [q | q |] | q]; simpl; lia.
Qed.

Lemma shr_fexp_nonneg (m e : Z) (l : location) :
  (0 <= m)%Z -> (0 <= shr_m (fst (shr_fexp prec emax m e l)))%Z.
Proof.
  intros H. unfold shr_fexp, shr.
  destruct (fexp prec emax (Zdigits2 m + e) - e)%Z; simpl fst;
    try (rewrite shr_record_of_loc_m; exact H).
  apply iter_pos_invariant; [exact shr_1_nonneg |].
  rewrite shr_record_of_loc_m; exact H.
Qed.

Lemma round_nearest_even_nonneg (m : Z) (l : location) :
  (0 <= m)%Z -> (0 <= round_nearest_even m l)%Z.
Proof.
  intros H. unfold round_nearest_even.
  destruct l as [| [ | | ]]; try destruct (Z.even m); lia.
Qed.

Lemma binary_round_aux_not_nan (s : bool) (m e : Z) (l : location) :
  (0 <= m)%Z -> is_nan (binary_round_aux prec emax s m e l) = false.
Proof.
  intros H. unfold binary_round_aux.
  pose proof (shr_fexp_nonneg m e l H) as H1.
  destruct (shr_fexp prec emax m e l) as [r1 e1]. simpl fst in H1.
  pose proof (shr_fexp_nonneg _ e1 loc_Exact
                (round_nearest_even_nonneg _ (loc_of_shr_record r1) H1)) as H2.
  destruct (shr_fexp prec emax _ e1 loc_Exact) as [r2 e2]. simpl fst in H2.
  destruct (shr_m r2) as [| q | q]; [reflexivity | | lia].
  destruct (e2 <=? emax - prec)%Z; reflexivity.
Qed.

Lemma shl_align_digits (p : positive) (e e' : Z) :
  (Z.pos (digits2_pos (fst (shl_align p e e'))) + snd (shl_align p e e')
   = Z.pos (digits2_pos p) + e)%Z
  /\ (snd (shl_align p e e') <= e)%Z.
Proof.
  unfold shl_align.
  destruct (e' - e)%Z as [| k | k] eqn:E; simpl fst; simpl snd;
    try (split; lia).
  rewrite digits2_pos_iter_xO. lia.
Qed.

Lemma binary_round_pos (s : bool) (p : positive) (e : Z) :
  (-1074 < Z.pos (digits2_pos p) + e)%Z ->
  (exists m' e',
      binary_round prec emax s p e = S754_finite s m' e'
      /\ (Z.pos (digits2_pos p) + e <= Z.pos (digits2_pos m') + e')%Z
      /\ (e' <= 971)%Z)
  \/ (binary_round prec emax s p e = S754_infinity s
      /\ (971 < e \/ 1023 < Z.pos (digits2_pos p) + e)%Z).
Proof.
  intros H. unfold binary_round.
  destruct (shl_align_digits p e (fexp prec emax (Z.pos (digits2_pos p) + e)))
    as [D L].
  destruct (shl_align p e _) as [mz ez]. simpl fst in D; simpl snd in D, L.
  destruct (binary_round_aux_pos s mz ez loc_Exact) as
    [(m' & e' & E & M & B) | (E & B)]; [lia | |].
  - left. exists m', e'. repeat split; [exact E | lia | exact B].
  - right. split; [exact E | lia].
Qed.

Lemma binary_round_not_nan (s : bool) (p : positive) (e : Z) :
  is_nan (binary_round prec emax s p e) = false.
Proof.
  unfold binary_round. destruct (shl_align p e _) as [mz ez].
  apply binary_round_aux_not_nan. lia.
Qed.

Lemma binary_normalize_not_nan (m e : Z) (sz : bool) :
  is_nan (binary_normalize prec emax m e sz) = false.
Proof.
  destruct m; simpl; [reflexivity | apply binary_round_not_nan ..].
Qed.

Lemma digits2_pos_bound (p : positive) (k : Z) :
  (0 <= k)%Z -> (Z.pos p < 2 ^ k)%Z -> (Z.pos (digits2_pos p) <= k)%Z.
Proof.
  intros Hk H. rewrite digits2_pos_log2.
  assert (Z.log2 (Z.pos p) < k)%Z by (apply Z.log2_lt_pow2; lia). lia.
Qed.

(** The conversion of an integer below [2^1023] in magnitude is exact or
    rounded, never an overflow. *)
Lemma Z2F_pos (p : positive) :
  (Z.pos p < 2 ^ 1023)%Z ->
  exists m e, Z2F (Z.pos p) = S754_finite false m e
              /\ (1 <= Z.pos (digits2_pos m) + e)%Z /\ (e <= 971)%Z.
Proof.
  intros H. pose proof (digits2_pos_bound p 1023 ltac:(lia) H) as D.
  unfold Z2F, binary_normalize.
  destruct (binary_round_pos false p 0) as
    [(m' & e' & E & M & B) | (E & B)]; [lia | | lia].
  exists m', e'. repeat split; [exact E | lia | exact B].
Qed.

Lemma Z2F_neg (p : positive) :
  (Z.pos p < 2 ^ 1023)%Z ->
  exists m e, Z2F (Z.neg p) = S754_finite true m e.
Proof.
  intros H. pose proof (digits2_pos_bound p 1023 ltac:(lia) H) as D.
  unfold Z2F, binary_normalize.
  destruct (binary_round_pos true p 0) as
    [(m' & e' & E & M & B) | (E & B)]; [lia | | lia].
  exists m', e'. exact E.
Qed.

Lemma Z2F_pos_cases (p : positive) :
  (exists m e, Z2F (Z.pos p) = S754_finite false m e
               /\ (1 <= Z.pos (digits2_pos m) + e)%Z)
  \/ Z2F (Z.pos p) = S754_infinity false.
Proof.
  unfold Z2F, binary_normalize.
  destruct (binary_round_pos false p 0) as
    [(m' & e' & E & M & B) | (E & B)]; [lia | | ].
  - left. exists m', e'. split; [exact E | lia].
  - right. exact E.
Qed.

Lemma float_of_int_in_range (z : Z) :
  (Z.abs z < 2 ^ 1023)%Z -> exists f, float_of_int z = Ok f.
Proof.
  intros H. unfold float_of_int. destruct z as [| p | p].
  - eexists; reflexivity.
  - destruct (Z2F_pos p) as (m & e & E & _); [lia |]. rewrite E. eauto.
  - destruct (Z2F_neg p) as (m & e & E); [lia |]. rewrite E. eauto.
Qed.

(** For a positive [max_length], [max_length * 0.8] is positive, so a
    [current_length] of [0] is below it. *)
Lemma threshold_positive (z : Z) (f : float) :
  (0 < z)%Z -> float_of_int z = Ok f ->
  int_ge_float 0 (fmul f f0_8) = false.
Proof.
  intros Hz. unfold float_of_int. destruct z as [| p | p]; try lia.
  destruct (Z2F_pos_cases p) as [(m & e & E & M) | E]; rewrite E;
    [| discriminate].
  intros [= <-]. unfold fmul, f0_8, SFmul. simpl xorb.
  destruct (binary_round_aux_pos false (m * 7205759403792794) (e + -53) loc_Exact)
    as [(m' & e' & E' & _) | (E' & _)].
  - pose proof (digits2_pos_mono m (m * 7205759403792794) ltac:(lia)). lia.
  - rewrite E'. unfold int_ge_float.
    destruct (Z.leb_spec 0 e') as [L | L].
    + apply Z.leb_gt.
      assert (0 < 2 ^ e')%Z by (apply Z.pow_pos_nonneg; lia). nia.
    + reflexivity.
  - rewrite E'. reflexivity.
Qed.

(** ** Order of floats, strings and tuples *)

Lemma SFcompare_key (x y : float) :
  is_nan x = false -> is_nan y = false ->
  SFcompare x y = Some (lex3 (fkey x) (fkey y)).
Proof.
  destruct x as [sx | sx | | sx mx ex], y as [sy | sy | | sy my ey];
    simpl; try discriminate; intros _ _;
    try (destruct sx; reflexivity); try (destruct sy; reflexivity);
    try (destruct sx, sy; reflexivity).
  destruct sx, sy; unfold lex3; simpl fst; simpl snd; try reflexivity.
  rewrite Z.compare_opp.
    change (Pos.compare_cont Eq mx my) with (Pos.compare mx my).
    change (Z.neg mx ?= Z.neg my)%Z with (CompOpp (Pos.compare mx my)).
    rewrite (Z.compare_antisym ex ey).
    destruct (ex ?= ey)%Z; reflexivity.
Qed.

Lemma lex3_Lt (a b : Z * Z * Z) :
  lex3 a b = Lt <->
  (fst (fst a) < fst (fst b)
   \/ fst (fst a) = fst (fst b)
      /\ (snd (fst a) < snd (fst b)
          \/ snd (fst a) = snd (fst b) /\ snd a < snd b))%Z.
Proof.
  unfold lex3.
  destruct (Z.compare_spec (fst (fst a)) (fst (fst b)));
    destruct (Z.compare_spec (snd (fst a)) (snd (fst b)));
    destruct (Z.compare_spec (snd a) (snd b));
    split; intros; try discriminate; try reflexivity; lia.
Qed.

Lemma lex3_Eq (a b : Z * Z * Z) :
  lex3 a b = Eq <->
  (fst (fst a) = fst (fst b) /\ snd (fst a) = snd (fst b) /\ snd a = snd b)%Z.
Proof.
  unfold lex3.
  destruct (Z.compare_spec (fst (fst a)) (fst (fst b)));
    destruct (Z.compare_spec (snd (fst a)) (snd (fst b)));
    destruct (Z.compare_spec (snd a) (snd b));
    split; intros; try discriminate; try reflexivity; lia.
Qed.

Lemma SFltb_not_nan (x y : float) :
  SFltb x y = true -> is_nan x = false /\ is_nan y = false.
Proof.
  unfold SFltb. destruct x, y; simpl; try discriminate; auto.
Qed.

Lemma SFeqb_not_nan (x y : float) :
  SFeqb x y = true -> is_nan x = false /\ is_nan y = false.
Proof.
  unfold SFeqb. destruct x, y; simpl; try discriminate; auto.
Qed.

Lemma SFltb_key (x y : float) :
  is_nan x = false -> is_nan y = false ->
  (SFltb x y = true <-> lex3 (fkey x) (fkey y) = Lt).
Proof.
  intros Hx Hy. unfold SFltb. rewrite (SFcompare_key x y Hx Hy).
  destruct (lex3 (fkey x) (fkey y)); split; intros; congruence.
Qed.

Lemma SFeqb_key (x y : float) :
  is_nan x = false -> is_nan y = false ->
  (SFeqb x y = true <-> lex3 (fkey x) (fkey y) = Eq).
Proof.
  intros Hx Hy. unfold SFeqb. rewrite (SFcompare_key x y Hx Hy).
  destruct (lex3 (fkey x) (fkey y)); split; intros; congruence.
Qed.

Lemma SFltb_trans (x y z : float) :
  SFltb x y = true -> SFltb y z = true -> SFltb x z = true.
Proof.
  intros A B.
  destruct (SFltb_not_nan x y A) as [Hx Hy].
  destruct (SFltb_not_nan y z B) as [_ Hz].
  rewrite SFltb_key, lex3_Lt in * by assumption. lia.
Qed.

Lemma SFeqb_trans (x y z : float) :
  SFeqb x y = true -> SFeqb y z = true -> SFeqb x z = true.
Proof.
  intros A B.
  destruct (SFeqb_not_nan x y A) as [Hx Hy].
  destruct (SFeqb_not_nan y z B) as [_ Hz].
  rewrite SFeqb_key, lex3_Eq in * by assumption. lia.
Qed.

Lemma SFeqb_sym (x y : float) : SFeqb x y = true -> SFeqb y x = true.
Proof.
  intros A. destruct (SFeqb_not_nan x y A) as [Hx Hy].
  rewrite SFeqb_key, lex3_Eq in * by assumption. lia.
Qed.

Lemma SFeqb_ltb_trans (x y z : float) :
  SFeqb x y = true -> SFltb y z = true -> SFltb x z = true.
Proof.
  intros A B.
  destruct (SFeqb_not_nan x y A) as [Hx Hy].
  destruct (SFltb_not_nan y z B) as [_ Hz].
  rewrite SFeqb_key, lex3_Eq in A by assumption.
  rewrite SFltb_key, lex3_Lt in * by assumption. lia.
Qed.

Lemma SFltb_eqb_trans (x y z : float) :
  SFltb x y = true -> SFeqb y z = true -> SFltb x z = true.
Proof.
  intros A B.
  destruct (SFltb_not_nan x y A) as [Hx Hy].
  destruct (SFeqb_not_nan y z B) as [_ Hz].
  rewrite SFeqb_key, lex3_Eq in B by assumption.
  rewrite SFltb_key, lex3_Lt in * by assumption. lia.
Qed.

Lemma SFltb_irrefl_eqb (x y : float) :
  SFltb x y = true -> SFeqb x y = false /\ SFeqb y x = false /\ SFltb y x = false.
Proof.
  intros A. destruct (SFltb_not_nan x y A) as [Hx Hy].
  rewrite SFltb_key, lex3_Lt in A by assumption.
  repeat split; apply not_true_is_false; intros B.
  - rewrite SFeqb_key, lex3_Eq in B by assumption. lia.
  - rewrite SFeqb_key, lex3_Eq in B by assumption. lia.
  - rewrite SFltb_key, lex3_Lt in B by assumption. lia.
Qed.

Lemma SFcompare_total (x y : float) :
  is_nan x = false -> is_nan y = false ->
  SFltb x y = true \/ SFeqb x y = true \/ SFltb y x = true.
Proof.
  intros Hx Hy.
  rewrite !SFltb_key, SFeqb_key, !lex3_Lt, lex3_Eq by assumption. lia.
Qed.

Lemma str_eqb_eq (a b : str) : str_eqb a b = true <-> a = b.
Proof.
  revert b. induction a as [| x a IH]; intros [| y b]; simpl;
    try (split; intros; congruence).
  rewrite andb_true_iff, N.eqb_eq, IH. split.
  - intros [-> ->]; reflexivity.
  - intros [= -> ->]; auto.
Qed.

Lemma str_eqb_refl (a : str) : str_eqb a a = true.
Proof. apply str_eqb_eq; reflexivity. Qed.

Lemma str_ltb_irrefl (a : str) : str_ltb a a = false.
Proof.
  induction a as [| x a IH]; simpl; [reflexivity |].
  rewrite N.eqb_refl. exact IH.
Qed.

Lemma str_ltb_trans (a b c : str) :
  str_ltb a b = true -> str_ltb b c = true -> str_ltb a c = true.
Proof.
  revert b c. induction a as [| x a IH]; intros [| y b] [| z c]; simpl;
    try discriminate; try reflexivity.
  destruct (N.eqb_spec x y) as [-> | Nxy];
    destruct (N.eqb_spec y z) as [-> | Nyz]; intros A B.
  - apply (IH b c A B).
  - exact B.
  - destruct (N.eqb_spec x z); [contradiction | exact A].
  - apply N.ltb_lt in A, B.
    destruct (N.eqb_spec x z); [lia | apply N.ltb_lt; lia].
Qed.

Lemma str_ltb_total (a b : str) :
  a <> b -> str_ltb a b = true \/ str_ltb b a = true.
Proof.
  revert b. induction a as [| x a IH]; intros [| y b] H; simpl; auto.
  rewrite (N.eqb_sym y x).
  destruct (N.eqb_spec x y) as [-> | Nxy].
  - apply IH. congruence.
  - rewrite !N.ltb_lt. lia.
Qed.

Lemma tuple_ltb_trans (a b c : scored) :
  tuple_ltb a b = true -> tuple_ltb b c = true -> tuple_ltb a c = true.
Proof.
  destruct a as [[sa ca] ia], b as [[sb cb] ib], c as [[sc cc] ic].
  unfold tuple_ltb.
  destruct (SFeqb sa sb) eqn:Eab; destruct (SFeqb sb sc) eqn:Ebc;
    simpl negb; cbv iota.
  - rewrite (SFeqb_trans _ _ _ Eab Ebc). simpl negb; cbv iota.
    destruct (str_eqb ca cb) eqn:Sab; destruct (str_eqb cb cc) eqn:Sbc;
      simpl negb; cbv iota.
    + apply str_eqb_eq in Sab, Sbc. subst. rewrite str_eqb_refl. simpl.
      rewrite !Nat.ltb_lt. lia.
    + apply str_eqb_eq in Sab. subst. rewrite Sbc. simpl. auto.
    + apply str_eqb_eq in Sbc. subst. rewrite Sab. simpl. auto.
    + intros A B. pose proof (str_ltb_trans _ _ _ A B) as C.
      destruct (str_eqb ca cc) eqn:Sac; simpl; [| exact C].
      apply str_eqb_eq in Sac. subst. rewrite str_ltb_irrefl in C.
      discriminate.
  - intros _ B. pose proof (SFeqb_ltb_trans _ _ _ Eab B) as C.
    destruct (SFltb_irrefl_eqb _ _ C) as (-> & _). exact C.
  - intros A _. pose proof (SFltb_eqb_trans _ _ _ A Ebc) as C.
    destruct (SFltb_irrefl_eqb _ _ C) as (-> & _). exact C.
  - intros A B. pose proof (SFltb_trans _ _ _ A B) as C.
    destruct (SFltb_irrefl_eqb _ _ C) as (-> & _). exact C.
Qed.

Lemma tuple_ltb_asym (a b : scored) :
  tuple_ltb a b = true -> tuple_ltb b a = false.
Proof.
  destruct a as [[sa ca] ia], b as [[sb cb] ib].
  unfold tuple_ltb.
  destruct (SFeqb sa sb) eqn:Eab; simpl negb; cbv iota.
  - rewrite (SFeqb_sym _ _ Eab). simpl negb; cbv iota.
    destruct (str_eqb ca cb) eqn:Sab; simpl negb; cbv iota.
    + apply str_eqb_eq in Sab. subst. rewrite str_eqb_refl. simpl.
      rewrite Nat.ltb_lt, Nat.ltb_ge. lia.
    + intros A. destruct (str_eqb cb ca) eqn:Sba; simpl.
      * apply str_eqb_eq in Sba. subst. rewrite str_eqb_refl in Sab.
        discriminate.
      * apply not_true_is_false. intros B.
        pose proof (str_ltb_trans _ _ _ A B) as C.
        rewrite str_ltb_irrefl in C. discriminate.
  - intros A. destruct (SFltb_irrefl_eqb _ _ A) as (_ & -> & ->).
    reflexivity.
Qed.

Lemma tuple_ltb_total (a b : scored) :
  is_nan (score_of a) = false -> is_nan (score_of b) = false ->
  index_of a <> index_of b ->
  tuple_ltb a b = true \/ tuple_ltb b a = true.
Proof.
  destruct a as [[sa ca] ia], b as [[sb cb] ib].
  unfold score_of, index_of, tuple_ltb; simpl fst; simpl snd.
  intros Ha Hb Hi.
  destruct (SFcompare_total sa sb Ha Hb) as [L | [E | L]].
  - destruct (SFltb_irrefl_eqb _ _ L) as (-> & _). auto.
  - rewrite E, (SFeqb_sym _ _ E). simpl negb; cbv iota.
    destruct (str_eqb ca cb) eqn:Sab.
    + apply str_eqb_eq in Sab. subst. rewrite str_eqb_refl. simpl.
      rewrite !Nat.ltb_lt. lia.
    + assert (ca <> cb) as N
          by (intros ->; rewrite str_eqb_refl in Sab; discriminate).
      assert (str_eqb cb ca = false) as ->.
      { apply not_true_is_false. intros B. apply str_eqb_eq in B.
        congruence. }
      simpl. apply str_ltb_total. exact N.
  - destruct (SFltb_irrefl_eqb _ _ L) as (-> & _). auto.
Qed.

(** ** Scores are numbers *)

Lemma fmul_not_nan (x y : float) :
  finite_or_zero x = true -> finite_or_zero y = true ->
  is_nan (fmul x y) = false.
Proof.
  destruct x, y; simpl; try discriminate; try reflexivity.
  intros _ _. apply binary_round_aux_not_nan. lia.
Qed.

Lemma fmul_finite_not_nan (x y : float) :
  is_finite x = true -> is_nan y = false -> is_nan (fmul x y) = false.
Proof.
  destruct x, y; simpl; try discriminate; try reflexivity.
  intros _ _. apply binary_round_aux_not_nan. lia.
Qed.

Lemma SFdiv_core_binary_nonneg (a b : positive) (e1 e2 : Z) :
  (0 <= fst (fst (SFdiv_core_binary prec emax (Z.pos a) e1 (Z.pos b) e2)))%Z.
Proof.
  unfold SFdiv_core_binary.
  set (s := (e1 - e2 - _)%Z).
  set (m' := match s with Z0 => Z.pos a | Z.pos _ => Z.shiftl (Z.pos a) s
                     | Z.neg _ => 0%Z end).
  assert (0 <= m')%Z as Hm.
  { subst m'. destruct s; try lia. apply Z.shiftl_nonneg. lia. }
  pose proof (Z.div_pos m' (Z.pos b) Hm ltac:(lia)) as Hq.
  unfold Z.div in Hq. destruct (Z.div_eucl m' (Z.pos b)) as [q r].
  exact Hq.
Qed.

Lemma fdiv_finite_not_nan (x y : float) :
  is_nan x = false -> is_finite y = true -> is_nan (fdiv x y) = false.
Proof.
  destruct x as [sx | sx | | sx mx ex], y as [sy | sy | | sy my ey]; simpl;
    try discriminate; try reflexivity.
  intros _ _.
  pose proof (SFdiv_core_binary_nonneg mx my ex ey) as H.
  destruct (SFdiv_core_binary prec emax (Z.pos mx) ex (Z.pos my) ey)
    as [[mz ez] lz].
  apply binary_round_aux_not_nan. exact H.
Qed.

Lemma fsub_f1_not_nan (x : float) :
  is_nan x = false -> is_nan (fsub f1 x) = false.
Proof.
  destruct x as [sx | sx | | sx mx ex]; try discriminate; try reflexivity.
  intros _. unfold fsub, f1, SFsub. apply binary_normalize_not_nan.
Qed.

Lemma float_of_size_finite (n : nat) :
  (0 < Z.of_nat n < 2 ^ 1023)%Z -> is_finite (float_of_size n) = true.
Proof.
  intros H. unfold float_of_size.
  destruct (Z.of_nat n) as [| p | p] eqn:E; try lia.
  destruct (Z2F_pos p) as (m & e & -> & _); [lia | reflexivity].
Qed.

Lemma float_of_size_finite_or_zero (n : nat) :
  (Z.of_nat n < 2 ^ 1023)%Z -> finite_or_zero (float_of_size n) = true.
Proof.
  intros H. destruct n as [| n]; [reflexivity |].
  pose proof (float_of_size_finite (S n) ltac:(lia)) as F.
  destruct (float_of_size (S n)); try discriminate; reflexivity.
Qed.

(** The score of a sentence is a number. *)
Lemma score_not_nan (size i count : nat) :
  (0 < Z.of_nat size < 2 ^ 1023)%Z ->
  (0 < Z.of_nat count < 2 ^ 1023)%Z ->
  (Z.of_nat i < 2 ^ 1023)%Z ->
  is_nan (fmul (float_of_size size)
            (fsub f1 (fdiv (fmul (float_of_size i) f0_1)
                        (float_of_size count)))) = false.
Proof.
  intros Hs Hc Hi.
  apply fmul_finite_not_nan; [apply float_of_size_finite; exact Hs |].
  apply fsub_f1_not_nan.
  apply fdiv_finite_not_nan; [| apply float_of_size_finite; exact Hc].
  apply fmul_not_nan; [| reflexivity].
  apply float_of_size_finite_or_zero; exact Hi.
Qed.

(** ** Sorting *)

Lemma insert_desc_perm (x : scored) (l : list scored) :
  Permutation (insert_desc x l) (x :: l).
Proof.
  induction l as [| y l IH]; simpl; [reflexivity |].
  destruct (tuple_ltb x y); [| reflexivity].
  rewrite IH. apply perm_swap.
Qed.

Lemma sort_reverse_perm (l : list scored) : Permutation (sort_reverse l) l.
Proof.
  induction l as [| x l IH]; simpl; [reflexivity |].
  rewrite insert_desc_perm, IH. reflexivity.
Qed.

Lemma orderable_perm (l l' : list scored) :
  Permutation l l' -> orderable l -> orderable l'.
Proof.
  intros P [F N]. split.
  - eapply Permutation_Forall; eassumption.
  - eapply Permutation_NoDup; [apply Permutation_map, P | exact N].
Qed.

Lemma orderable_pairs (l : list scored) :
  orderable l -> ForallOrdPairs comparable l.
Proof.
  intros [F N]. induction l as [| x l IH]; [constructor |].
  inversion F as [| ? ? Fx Fl]; subst.
  simpl in N. inversion N as [| ? ? Nx Nl]; subst.
  constructor; [| apply IH; assumption].
  rewrite Forall_forall in *. intros y Hy.
  apply tuple_ltb_total; [exact Fx | apply Fl, Hy |].
  intros E. apply Nx. rewrite E. apply in_map, Hy.
Qed.

Lemma insert_desc_sorted (x : scored) (l : list scored) :
  Forall (comparable x) l ->
  StronglySorted tuple_gt l -> StronglySorted tuple_gt (insert_desc x l).
Proof.
  intros C S. induction S as [| y l S IH Fy]; simpl.
  - constructor; constructor.
  - inversion C as [| ? ? Cy Cl]; subst.
    destruct (tuple_ltb x y) eqn:E.
    + constructor; [apply IH, Cl |].
      apply (Permutation_Forall (Permutation_sym (insert_desc_perm x l))).
      constructor; [exact E | exact Fy].
    + assert (tuple_gt x y) as G.
      { destruct Cy as [L | L]; [congruence | exact L]. }
      constructor; [constructor; assumption |].
      constructor; [exact G |].
      rewrite Forall_forall in *. intros z Hz.
      apply (tuple_ltb_trans z y x); [apply Fy, Hz | exact G].
Qed.

Lemma sort_reverse_sorted (l : list scored) :
  ForallOrdPairs comparable l -> StronglySorted tuple_gt (sort_reverse l).
Proof.
  induction 1 as [| x l Fx P IH]; simpl; [constructor |].
  apply insert_desc_sorted; [| exact IH].
  apply (Permutation_Forall (Permutation_sym (sort_reverse_perm l))), Fx.
Qed.

Lemma descending_strict (l : list scored) :
  ForallOrdPairs comparable l ->
  StronglySorted not_lt l -> StronglySorted tuple_gt l.
Proof.
  induction 1 as [| x l Fx P IH]; intros S; [constructor |].
  inversion S as [| ? ? S' Nx]; subst.
  constructor; [apply IH, S' |].
  rewrite Forall_forall in *. intros y Hy.
  destruct (Fx y Hy) as [L | L]; [| exact L].
  specialize (Nx y Hy). unfold not_lt in Nx. congruence.
Qed.

(** A list has at most one arrangement in strictly descending order. *)
Lemma descending_unique (l1 l2 : list scored) :
  StronglySorted tuple_gt l1 -> StronglySorted tuple_gt l2 ->
  Permutation l1 l2 -> l1 = l2.
Proof.
  intros S1. revert l2.
  induction S1 as [| a l1 S1 IH Fa]; intros l2 S2 P.
  - apply Permutation_nil in P. congruence.
  - destruct S2 as [| b l2 S2 Fb].
    + apply Permutation_sym, Permutation_nil in P. discriminate.
    + assert (a = b) as ->.
      { assert (In a (b :: l2)) as Ia
            by (apply (Permutation_in _ P); left; reflexivity).
        assert (In b (a :: l1)) as Ib
            by (apply (Permutation_in _ (Permutation_sym P)); left;
                reflexivity).
        destruct Ia as [-> | Ia]; [reflexivity |].
        destruct Ib as [-> | Ib]; [reflexivity |].
        rewrite Forall_forall in Fa, Fb.
        pose proof (Fa b Ib) as G1. pose proof (Fb a Ia) as G2.
        unfold tuple_gt in *.
        rewrite (tuple_ltb_asym _ _ G1) in G2. discriminate. }
      f_equal. apply IH; [exact S2 |].
      apply (Permutation_cons_inv P).
Qed.

(** Whatever puts an orderable list in descending order gives what
    [sort_reverse] gives. *)
Lemma sort_reverse_unique (l l' : list scored) :
  orderable l -> Permutation l' l -> StronglySorted not_lt l' ->
  l' = sort_reverse l.
Proof.
  intros O P S. apply descending_unique.
  - apply descending_strict; [| exact S].
    apply orderable_pairs, (orderable_perm l l' (Permutation_sym P)), O.
  - apply sort_reverse_sorted, orderable_pairs, O.
  - rewrite P. symmetry. apply sort_reverse_perm.
Qed.

(** *** Strings and segmentation *)

Lemma len_app (a b : str) : len (a ++ b) = (len a + len b)%Z.
Proof. unfold len. rewrite length_app. lia. Qed.

Lemma len_nonneg (a : str) : (0 <= len a)%Z.
Proof. unfold len. lia. Qed.

Lemma str_truthy_true (s : str) : str_truthy s = true <-> s <> [].
Proof. destruct s; simpl; split; congruence. Qed.

Lemma lstrip_length (s : str) : (List.length (lstrip s) <= List.length s)%nat.
Proof.
  induction s as [| c s IH]; simpl; [lia |].
  destruct (isspace c); simpl; lia.
Qed.

Lemma strip_length (s : str) : (List.length (strip s) <= List.length s)%nat.
Proof.
  unfold strip, rstrip. rewrite length_rev.
  pose proof (lstrip_length (rev (lstrip s))) as H.
  rewrite length_rev in H. pose proof (lstrip_length s). lia.
Qed.

Lemma re_split_length (text : str) :
  (list_sum (map (@List.length char) (re_split text)) <= List.length text)%nat.
Proof.
  induction text as [| c rest IH]; simpl; [lia |].
  destruct (is_delimiter c); simpl; [lia |].
  destruct (re_split rest) as [| frag frags]; simpl in *; lia.
Qed.

Lemma strip_nonempty_length (frags : list str) :
  (list_sum (map (@List.length char) (strip_nonempty frags))
   <= list_sum (map (@List.length char) frags))%nat.
Proof.
  induction frags as [| s rest IH]; simpl; [lia |].
  pose proof (strip_length s).
  destruct (str_truthy (strip s)); simpl; lia.
Qed.

Lemma strip_nonempty_spec (frags : list str) :
  strip_nonempty frags
  = map strip (filter (fun s => str_truthy (strip s)) frags).
Proof.
  induction frags as [| s rest IH]; simpl; [reflexivity |].
  destruct (str_truthy (strip s)); simpl; rewrite IH; reflexivity.
Qed.

Lemma strip_nonempty_nonempty (frags : list str) :
  Forall (fun s => s <> []) (strip_nonempty frags).
Proof.
  induction frags as [| s rest IH]; simpl; [constructor |].
  destruct (str_truthy (strip s)) eqn:E; [| exact IH].
  constructor; [apply str_truthy_true, E | exact IH].
Qed.

Lemma nonempty_count (l : list str) :
  Forall (fun s => s <> []) l ->
  (List.length l <= list_sum (map (@List.length char) l))%nat.
Proof.
  induction 1 as [| s l Hs F IH]; simpl; [lia |].
  destruct s; [congruence | simpl; lia].
Qed.

Lemma in_list_sum (s : str) (l : list str) :
  In s l -> (List.length s <= list_sum (map (@List.length char) l))%nat.
Proof.
  induction l as [| x l IH]; simpl; [tauto |].
  intros [-> | H]; [lia | specialize (IH H); lia].
Qed.

(** Sentences are non-empty pieces of the text: they are at most as many,
    and each at most as long, as the text has characters. *)
Lemma sentences_of_bounds (text : str) :
  (List.length (sentences_of text) <= List.length text)%nat
  /\ Forall (fun s => (0 < List.length s <= List.length text)%nat)
       (sentences_of text).
Proof.
  unfold sentences_of.
  pose proof (strip_nonempty_length (re_split text)) as A.
  pose proof (re_split_length text) as B.
  pose proof (strip_nonempty_nonempty (re_split text)) as C.
  split.
  - pose proof (nonempty_count _ C). lia.
  - rewrite Forall_forall in *. intros s Hs.
    pose proof (in_list_sum s _ Hs). specialize (C s Hs).
    destruct s; [congruence | simpl in *; lia].
Qed.

(** *** Scoring *)

Lemma scoring_loop_spec (count : nat) (items : list (nat * str))
  (acc : list scored) :
  scoring_loop count items acc = acc ++ map (scored_at count) items.
Proof.
  revert acc. induction items as [| [i sent] rest IH]; intros acc; simpl.
  - rewrite app_nil_r. reflexivity.
  - rewrite IH, <- app_assoc. reflexivity.
Qed.

Lemma scored_sentences_spec (sentences : list str) :
  scored_sentences sentences
  = map (scored_at (List.length sentences)) (enumerate sentences).
Proof. unfold scored_sentences. apply scoring_loop_spec. Qed.

Lemma combine_seq_nth_error {A : Type} (l : list A) (k i : nat) :
  nth_error (combine (seq k (List.length l)) l) i
  = option_map (fun a => ((k + i)%nat, a)) (nth_error l i).
Proof.
  revert k i. induction l as [| a l IH]; intros k [| i]; simpl;
    try reflexivity.
  - rewrite Nat.add_0_r. reflexivity.
  - rewrite IH. rewrite Nat.add_succ_r. reflexivity.
Qed.

Lemma combine_seq_fst {A : Type} (l : list A) (k : nat) :
  map fst (combine (seq k (List.length l)) l) = seq k (List.length l).
Proof.
  revert k. induction l as [| a l IH]; intros k; simpl; [reflexivity |].
  rewrite IH. reflexivity.
Qed.

Lemma combine_seq_snd {A : Type} (l : list A) (k : nat) :
  map snd (combine (seq k (List.length l)) l) = l.
Proof.
  revert k. induction l as [| a l IH]; intros k; simpl; [reflexivity |].
  rewrite IH. reflexivity.
Qed.

Lemma scored_sentences_nth_error (sentences : list str) (i : nat) :
  nth_error (scored_sentences sentences) i
  = option_map
      (fun sent =>
         (score_formula (List.length sent) i (List.length sentences), sent, i))
      (nth_error sentences i).
Proof.
  rewrite scored_sentences_spec, nth_error_map. unfold enumerate.
  rewrite combine_seq_nth_error.
  destruct (nth_error sentences i); reflexivity.
Qed.

Lemma scored_sentences_indices (sentences : list str) :
  map index_of (scored_sentences sentences)
  = seq 0 (List.length sentences).
Proof.
  rewrite scored_sentences_spec, map_map. unfold enumerate.
  rewrite <- (combine_seq_fst sentences 0) at 2.
  apply map_ext. intros [i s]. reflexivity.
Qed.

Lemma scored_sentences_sents (sentences : list str) :
  map sent_of (scored_sentences sentences) = sentences.
Proof.
  rewrite scored_sentences_spec, map_map. unfold enumerate.
  rewrite <- (combine_seq_snd sentences 0) at 3.
  apply map_ext. intros [i s]. reflexivity.
Qed.

Lemma scored_sentences_orderable (text : str) :
  (len text <= sys_maxsize)%Z ->
  orderable (scored_sentences (sentences_of text)).
Proof.
  intros H. split.
  - destruct (sentences_of_bounds text) as [Bn Bs].
    apply Forall_forall. intros a Ha.
    destruct (In_nth_error _ _ Ha) as [i Hi].
    rewrite scored_sentences_nth_error in Hi.
    destruct (nth_error (sentences_of text) i) as [sent |] eqn:E;
      [| discriminate].
    injection Hi as <-. unfold score_of; simpl fst.
    pose proof (nth_error_In _ _ E) as Hin.
    rewrite Forall_forall in Bs. specialize (Bs sent Hin).
    assert (i < List.length (sentences_of text))%nat as Li
        by (apply nth_error_Some; congruence).
    unfold len, sys_maxsize in H.
    assert (2 ^ 63 < 2 ^ 1023)%Z by (apply Z.pow_lt_mono_r; lia).
    apply score_not_nan; lia.
  - rewrite scored_sentences_indices. apply seq_NoDup.
Qed.

(** *** The selection loop *)

Lemma select_step_eq (max_length : Z) (st : selection) (item : scored) :
  select_step max_length st item
  = (m <- float_of_int max_length ;;
     Ok (accept max_length st item,
         int_ge_float (current_length (accept max_length st item))
           (fmul m f0_8))).
Proof.
  destruct item as [[sc sent] i]. unfold select_step, accept, render.
  unfold sent_of, index_of; simpl fst; simpl snd.
  rewrite len_app. reflexivity.
Qed.

Lemma select_loop_cons {max_length : Z} {f : float} (item : scored)
  (rest : list scored) (st : selection) :
  float_of_int max_length = Ok f ->
  select_loop max_length (item :: rest) st
  = if int_ge_float (current_length (accept max_length st item))
         (fmul f f0_8)
    then Ok (accept max_length st item)
    else select_loop max_length rest (accept max_length st item).
Proof.
  intros E. simpl. rewrite select_step_eq, E. reflexivity.
Qed.

Lemma select_loop_raise {max_length : Z} {e : pyexn} (item : scored)
  (rest : list scored) (st : selection) :
  float_of_int max_length = Raise e ->
  select_loop max_length (item :: rest) st = Raise e.
Proof.
  intros E. simpl. rewrite select_step_eq, E. reflexivity.
Qed.

Lemma select_loop_float {max_length : Z} {items : list scored}
  {st st' : selection} :
  items <> [] -> select_loop max_length items st = Ok st' ->
  exists f, float_of_int max_length = Ok f.
Proof.
  destruct items as [| item rest]; [congruence |]. intros _.
  destruct (float_of_int max_length) as [f | e] eqn:E; [eauto |].
  rewrite (select_loop_raise _ _ _ E). discriminate.
Qed.

(** The loop returns whenever [max_length * 0.8] can be computed. *)
Lemma select_loop_returns (max_length : Z) (f : float) (items : list scored) :
  float_of_int max_length = Ok f ->
  forall st, exists st', select_loop max_length items st = Ok st'.
Proof.
  intros E. induction items as [| item rest IH]; intros st.
  - eexists; reflexivity.
  - rewrite (select_loop_cons _ _ _ E).
    destruct (int_ge_float _ _); [eexists; reflexivity | apply IH].
Qed.

Lemma total_length_app (a b : list (nat * str)) :
  total_length (a ++ b) = (total_length a + total_length b)%Z.
Proof. induction a as [| p a IH]; simpl; lia. Qed.

Lemma total_length_nonneg (a : list (nat * str)) : (0 <= total_length a)%Z.
Proof.
  induction a as [| p a IH]; simpl; [lia |].
  pose proof (len_nonneg (snd p)). lia.
Qed.

Lemma len_render (item : scored) :
  len (snd (render item)) = (len (sent_of item) + 1)%Z.
Proof. unfold render. simpl snd. rewrite len_app. reflexivity. Qed.

(** What the loop does to its state: it appends the rendered forms of a
    subsequence [chosen] of the items, in their order, and adds up their
    lengths; once something is chosen, the length is within [max_length]. *)
Lemma select_loop_spec (max_length : Z) (items : list scored) :
  forall st st',
    select_loop max_length items st = Ok st' ->
    exists chosen,
      subseq chosen items
      /\ summary_parts st' = summary_parts st ++ map render chosen
      /\ current_length st'
         = (current_length st + total_length (map render chosen))%Z
      /\ (chosen <> [] -> (current_length st' <= max_length)%Z).
Proof.
  induction items as [| item rest IH]; intros st st' H.
  - simpl in H. injection H as <-. exists []. simpl.
    rewrite app_nil_r. repeat split; [constructor | lia | congruence].
  - destruct (select_loop_float (items := item :: rest) ltac:(discriminate) H)
      as [f E].
    rewrite (select_loop_cons _ _ _ E) in H.
    assert (exists chosen,
               subseq chosen rest
               /\ summary_parts st'
                  = summary_parts (accept max_length st item)
                      ++ map render chosen
               /\ current_length st'
                  = (current_length (accept max_length st item)
                     + total_length (map render chosen))%Z
               /\ (chosen <> [] -> (current_length st' <= max_length)%Z))
      as (chosen & S & P & C & B).
    { destruct (int_ge_float _ _).
      - injection H as <-. exists []. simpl. rewrite app_nil_r.
        repeat split; [| lia | congruence].
        clear. induction rest; constructor; assumption.
      - apply IH, H. }
    unfold accept in *.
    destruct (current_length st + (len (sent_of item) + 1) <=? max_length)%Z
      eqn:F; simpl summary_parts in *; simpl current_length in *.
    + exists (item :: chosen).
      rewrite <- app_assoc in P. simpl app in P.
      split; [constructor; exact S |]. split; [exact P |]. split.
      * change (total_length (map render (item :: chosen)))
          with (len (snd (render item))
                + total_length (map render chosen))%Z.
        rewrite len_render. lia.
      * intros _. destruct chosen as [| c chosen'].
        -- simpl in C. apply Z.leb_le in F. lia.
        -- apply B. discriminate.
    + exists chosen. repeat split; try assumption.
      constructor. exact S.
Qed.

Lemma subseq_incl {A : Type} {l1 l2 : list A} :
  subseq l1 l2 -> incl l1 l2.
Proof.
  induction 1 as [| x l1 l2 S IH | x l1 l2 S IH]; intros a Ha.
  - exact Ha.
  - right. apply IH, Ha.
  - destruct Ha as [-> | Ha]; [left; reflexivity | right; apply IH, Ha].
Qed.

Lemma subseq_map {A B : Type} (f : A -> B) (l1 l2 : list A) :
  subseq l1 l2 -> subseq (map f l1) (map f l2).
Proof. induction 1; simpl; constructor; assumption. Qed.

Lemma subseq_NoDup {A : Type} (l1 l2 : list A) :
  subseq l1 l2 -> NoDup l2 -> NoDup l1.
Proof.
  induction 1 as [| x l1 l2 S IH | x l1 l2 S IH]; intros N.
  - exact N.
  - inversion N; subst. apply IH; assumption.
  - inversion N as [| ? ? Nx Nl]; subst. constructor; [| apply IH, Nl].
    intros Hx. apply Nx. apply (subseq_incl S), Hx.
Qed.

Lemma insert_by_index_perm (x : nat * str) (l : list (nat * str)) :
  Permutation (insert_by_index x l) (x :: l).
Proof.
  induction l as [| y l IH]; simpl; [reflexivity |].
  destruct (fst y <? fst x)%nat; [| reflexivity].
  rewrite IH. apply perm_swap.
Qed.

Lemma sort_by_index_perm (l : list (nat * str)) :
  Permutation (sort_by_index l) l.
Proof.
  induction l as [| x l IH]; simpl; [reflexivity |].
  rewrite insert_by_index_perm, IH. reflexivity.
Qed.

Lemma insert_by_index_sorted (x : nat * str) (l : list (nat * str)) :
  ~ In (fst x) (map fst l) ->
  StronglySorted index_lt l -> StronglySorted index_lt (insert_by_index x l).
Proof.
  intros N S. induction S as [| y l S IH Fy]; simpl.
  - constructor; constructor.
  - simpl in N. destruct (Nat.ltb_spec (fst y) (fst x)) as [L | L].
    + constructor; [apply IH; tauto |].
      apply (Permutation_Forall (Permutation_sym (insert_by_index_perm x l))).
      constructor; [exact L | exact Fy].
    + assert (fst x < fst y)%nat as G by lia.
      constructor; [constructor; assumption |].
      constructor; [exact G |].
      rewrite Forall_forall in *. intros z Hz.
      specialize (Fy z Hz). unfold index_lt in *. lia.
Qed.

Lemma sort_by_index_sorted (l : list (nat * str)) :
  NoDup (map fst l) -> StronglySorted index_lt (sort_by_index l).
Proof.
  induction l as [| x l IH]; simpl; intros N; [constructor |].
  inversion N as [| ? ? Nx Nl]; subst.
  apply insert_by_index_sorted; [| apply IH, Nl].
  intros H. apply Nx.
  apply (Permutation_in _ (Permutation_map fst (sort_by_index_perm l))), H.
Qed.

Lemma total_length_perm (a b : list (nat * str)) :
  Permutation a b -> total_length a = total_length b.
Proof. induction 1; simpl; lia. Qed.

(** *** Joining *)

Lemma len_join (sep : str) (parts : list (nat * str)) :
  parts <> [] ->
  len (join sep (map snd parts))
  = (total_length parts + (Z.of_nat (List.length parts) - 1) * len sep)%Z.
Proof.
  induction parts as [| p rest IH]; [congruence |]. intros _.
  destruct rest as [| q rest].
  - simpl. lia.
  - change (join sep (map snd (p :: q :: rest)))
      with (snd p ++ sep ++ join sep (map snd (q :: rest))).
    rewrite !len_app, IH by discriminate.
    change (total_length (p :: q :: rest))
      with (len (snd p) + total_length (q :: rest))%Z.
    change (List.length (p :: q :: rest)) with (S (List.length (q :: rest))).
    rewrite Nat2Z.inj_succ. ring.
Qed.

Lemma join_truthy (sep : str) (parts : list (nat * str)) :
  parts <> [] -> Forall (fun p => snd p <> []) parts ->
  str_truthy (join sep (map snd parts)) = true.
Proof.
  intros N F. destruct parts as [| p rest]; [congruence |].
  inversion F as [| ? ? Hp _]; subst. simpl in Hp.
  apply str_truthy_true.
  destruct rest as [| q rest]; simpl; [exact Hp |].
  intros E. apply app_eq_nil in E. tauto.
Qed.

Lemma render_nonempty (chosen : list scored) :
  Forall (fun p => snd p <> []) (map render chosen).
Proof.
  apply Forall_forall. intros p Hp. apply in_map_iff in Hp.
  destruct Hp as (c & <- & _). unfold render. simpl snd.
  destruct (sent_of c); discriminate.
Qed.

(** *** The first acceptance *)

(** With a positive [max_length] the loop cannot leave before it has
    accepted a sentence: it ends with nothing selected exactly when no
    sentence fits. *)
Lemma select_loop_first (max_length : Z) (f : float) (items : list scored) :
  (0 < max_length)%Z -> float_of_int max_length = Ok f ->
  forall st',
    select_loop max_length items selection0 = Ok st' ->
    (summary_parts st' = []
     <-> Forall (fun item => ~ fits max_length (sent_of item)) items).
Proof.
  intros Hm E. induction items as [| item rest IH]; intros st' H.
  - simpl in H. injection H as <-. split; [constructor | reflexivity].
  - rewrite (select_loop_cons _ _ _ E) in H. unfold accept in H.
    change (current_length selection0) with 0%Z in H.
    change (summary_parts selection0) with (@nil (nat * str)) in H.
    simpl app in H.
    destruct (Z.leb_spec (0 + (len (sent_of item) + 1)) max_length)
      as [L | L].
    + assert (summary_parts st' <> []) as N.
      { simpl current_length in H.
        destruct (int_ge_float _ _).
        - injection H as <-. discriminate.
        - destruct (select_loop_spec _ _ _ _ H) as (chosen & _ & P & _).
          rewrite P. discriminate. }
      split; [congruence |]. intros F. inversion F as [| ? ? Hf _]; subst.
      exfalso. apply Hf. unfold fits. lia.
    + change (mkSelection [] 0) with selection0 in H.
      change (current_length selection0) with 0%Z in H.
      rewrite (threshold_positive _ _ Hm E) in H.
      rewrite (IH _ H). split.
      * intros F. constructor; [unfold fits; lia | exact F].
      * intros F. inversion F; assumption.
Qed.

(** ** The summarizer as a whole *)

Lemma bind_ok {A B : Type} (a : A) (k : A -> exc B) : bind (Ok a) k = k a.
Proof. reflexivity. Qed.

Lemma slice_to_nonneg (s : str) (n : Z) :
  (0 <= n)%Z -> slice_to s n = firstn (Z.to_nat n) s.
Proof.
  intros H. unfold slice_to.
  destruct (Z.ltb_spec n 0); [lia | reflexivity].
Qed.

Lemma extractive_no_sentences (sort : list scored -> list scored)
  (text : str) (max_length : Z) :
  sentences_of text = [] ->
  extractive_with sort text max_length = Ok (slice_to text max_length).
Proof. intros E. unfold extractive_with. rewrite E. reflexivity. Qed.

Lemma sort_by_index_nil (parts : list (nat * str)) :
  sort_by_index parts = [] -> parts = [].
Proof.
  intros E. apply Permutation_nil. rewrite <- E.
  apply sort_by_index_perm.
Qed.

Lemma extractive_selection (sort : list scored -> list scored)
  (text : str) (max_length : Z) :
  sentences_of text <> [] ->
  extractive_with sort text max_length
  = (st <- select_loop max_length
             (sort (scored_sentences (sentences_of text))) selection0 ;;
     Ok (result_of text max_length st)).
Proof.
  intros N. unfold extractive_with.
  destruct (sentences_of text) as [| s rest] eqn:E; [congruence |].
  destruct (select_loop max_length _ selection0) as [st | e] eqn:L;
    [simpl bind | reflexivity].
  f_equal. unfold result_of.
  destruct (select_loop_spec _ _ _ _ L) as (chosen & _ & P & _).
  simpl app in P. rewrite P.
  destruct chosen as [| c chosen].
  - reflexivity.
  - set (parts := map render (c :: chosen)).
    assert (sort_by_index parts <> []) as Np.
    { intros H. apply sort_by_index_nil in H. discriminate. }
    rewrite join_truthy; [reflexivity | exact Np |].
    apply (Permutation_Forall (Permutation_sym (sort_by_index_perm parts))).
    apply render_nonempty.
Qed.

(** The summarizer raises exactly when there is a sentence and
    [max_length * 0.8] overflows. *)
Lemma extractive_raises (text : str) (max_length : Z) (e : pyexn) :
  _extractive_summarize text max_length = Raise e
  <-> sentences_of text <> [] /\ float_of_int max_length = Raise e.
Proof.
  unfold _extractive_summarize.
  destruct (sentences_of text) as [| s rest] eqn:E.
  - rewrite extractive_no_sentences by exact E. split; [discriminate |].
    intros [N _]. congruence.
  - rewrite extractive_selection by congruence. rewrite E.
    assert (sort_reverse (scored_sentences (s :: rest)) <> []) as N.
    { intros H. pose proof (sort_reverse_perm (scored_sentences (s :: rest)))
        as P. rewrite H in P. apply Permutation_nil in P.
      apply (f_equal (map sent_of)) in P.
      rewrite scored_sentences_sents in P. discriminate. }
    destruct (sort_reverse (scored_sentences (s :: rest))) as [| item items];
      [congruence |].
    destruct (float_of_int max_length) as [f | e'] eqn:F.
    + destruct (select_loop_returns _ _ (item :: items) F selection0)
        as [st ->].
      simpl. split; [discriminate | intros [_ H]; discriminate].
    + rewrite (select_loop_raise _ _ _ F). simpl.
      split; [intros [= ->]; split; [discriminate | reflexivity] |].
      intros [_ [= ->]]. reflexivity.
Qed.

Lemma extractive_returns (text : str) (max_length : Z) :
  sentences_of text = [] \/ (exists f, float_of_int max_length = Ok f) ->
  exists summary, _extractive_summarize text max_length = Ok summary.
Proof.
  intros H.
  destruct (_extractive_summarize text max_length) as [s | e] eqn:E;
    [eauto |].
  apply extractive_raises in E. destruct E as [N F].
  destruct H as [H | [f H]]; congruence.
Qed.

Lemma scored_sentences_In (sentences : list str) (item : scored) :
  In item (scored_sentences sentences) ->
  nth_error sentences (index_of item) = Some (sent_of item).
Proof.
  intros H. destruct (In_nth_error _ _ H) as [k Hk].
  rewrite scored_sentences_nth_error in Hk.
  destruct (nth_error sentences k) as [sent |] eqn:E; [| discriminate].
  injection Hk as <-. exact E.
Qed.

Section Selected.

Variables (text : str) (max_length : Z) (st : selection).

Hypothesis loop_ends :
  select_loop max_length
    (sort_reverse (scored_sentences (sentences_of text))) selection0
  = Ok st.

(** The selected entries carry pairwise distinct indices, so sorting them
    on the index puts them in strictly ascending order. *)
Lemma selected_sorted :
  StronglySorted index_lt (sort_by_index (summary_parts st)).
Proof.
  destruct (select_loop_spec _ _ _ _ loop_ends) as (chosen & S & P & _).
  simpl app in P.
  apply sort_by_index_sorted. rewrite P, map_map.
  change (map (fun x => fst (render x)) chosen) with (map index_of chosen).
  apply (subseq_NoDup _ _ (subseq_map index_of _ _ S)).
  apply (Permutation_NoDup
           (Permutation_map index_of
              (Permutation_sym
                 (sort_reverse_perm
                    (scored_sentences (sentences_of text)))))).
  rewrite scored_sentences_indices. apply seq_NoDup.
Qed.

(** Each selected entry is a sentence of the text under its own index,
    followed by the delimiter. *)
Lemma selected_origin :
  Forall (fun p => exists sent,
              nth_error (sentences_of text) (fst p) = Some sent
              /\ snd p = sent ++ [KHAN]) (summary_parts st).
Proof.
  destruct (select_loop_spec _ _ _ _ loop_ends) as (chosen & S & P & _).
  simpl app in P. rewrite P. apply Forall_forall. intros p Hp.
  apply in_map_iff in Hp. destruct Hp as (item & <- & Hi).
  exists (sent_of item). split; [| reflexivity].
  apply scored_sentences_In.
  apply (Permutation_in _ (sort_reverse_perm _)).
  apply (subseq_incl S), Hi.
Qed.

Lemma selected_summary :
  summary_parts st <> [] ->
  _extractive_summarize text max_length
  = Ok (join [SPACE] (map snd (sort_by_index (summary_parts st)))).
Proof.
  intros N. unfold _extractive_summarize.
  assert (sentences_of text <> []) as Ns.
  { intros E. rewrite E in loop_ends. simpl in loop_ends.
    injection loop_ends as <-. apply N. reflexivity. }
  rewrite (extractive_selection _ _ _ Ns), loop_ends. simpl bind.
  unfold result_of. destruct (summary_parts st); [congruence | reflexivity].
Qed.

Lemma selected_nothing :
  sentences_of text <> [] -> summary_parts st = [] ->
  _extractive_summarize text max_length = Ok (slice_to text max_length).
Proof.
  intros Ns E. unfold _extractive_summarize.
  rewrite (extractive_selection _ _ _ Ns), loop_ends. simpl bind.
  unfold result_of. rewrite E. reflexivity.
Qed.

(** The loop keeps [current_length] equal to the total length of the
    accepted rendered forms, and within [max_length] as soon as one is
    accepted. *)
Lemma selected_length :
  current_length st = total_length (summary_parts st)
  /\ (summary_parts st <> [] -> (current_length st <= max_length)%Z)
  /\ ((0 <= max_length)%Z -> (current_length st <= max_length)%Z).
Proof.
  destruct (select_loop_spec _ _ _ _ loop_ends) as (chosen & _ & P & C & B).
  simpl in P, C. rewrite P. split; [exact C |].
  destruct chosen as [| c chosen].
  - simpl in C. simpl map.
    split; [intros X; exfalso; apply X; reflexivity | lia].
  - split; intros _; apply B; discriminate.
Qed.

End Selected.

Lemma StronglySorted_nth {A : Type} {R : A -> A -> Prop} {l : list A} :
  StronglySorted R l ->
  forall p q a b,
    (p < q)%nat -> nth_error l p = Some a -> nth_error l q = Some b -> R a b.
Proof.
  induction 1 as [| x l S IH F]; intros p q a b Hpq Hp Hq.
  - destruct p; discriminate.
  - destruct q as [| q]; [lia |]. simpl in Hq.
    destruct p as [| p]; simpl in Hp.
    + injection Hp as <-. rewrite Forall_forall in F.
      apply F. apply (nth_error_In _ _ Hq).
    + apply (IH p q); [lia | assumption | assumption].
Qed.

Lemma sort_reverse_descending (text : str) :
  (len text <= sys_maxsize)%Z ->
  StronglySorted tuple_gt
    (sort_reverse (scored_sentences (sentences_of text))).
Proof.
  intros H. apply sort_reverse_sorted, orderable_pairs.
  apply scored_sentences_orderable, H.
Qed.

Lemma re_split_no_delimiter (text : str) :
  Forall (fun c => is_delimiter c = false) text -> re_split text = [text].
Proof.
  induction 1 as [| c rest Hc F IH]; simpl; [reflexivity |].
  rewrite Hc, IH. reflexivity.
Qed.

(** The tie of the two-sentence example: [20 * (1 - 1 * 0.1 / 2)] and
    [19 * (1 - 0 * 0.1 / 2)] are both [19.0]. *)
Example score_tie :
  score_formula 20 1 2 = Z2F 19 /\ score_formula 19 0 2 = Z2F 19.
Proof. vm_compute. split; reflexivity. Qed.

(** * The claims *)

(** C1 (the code departs from it).  The claim bounds the length of the
    summary by [max_length] outside the truncation branch.  The loop only
    budgets the rendered sentences; the join then adds one space per gap.
    On the text ["a។b។"] with [max_length = 4] both sentences are selected
    (rendered lengths 2 + 2 = 4) and the summary returned, ["a។ b។"], has
    5 characters. *)
Theorem extractive_exceeds_max_length :
  sentences_of (u "a។b។") = [u "a"; u "b"]
  /\ select_loop 4 (sort_reverse (scored_sentences (sentences_of (u "a។b។"))))
       selection0
     = Ok (mkSelection [(0%nat, u "a។"); (1%nat, u "b។")] 4)
  /\ _extractive_summarize (u "a។b។") 4 = Ok (u "a។ b។")
  /\ len (u "a។ b។") = 5%Z.
Proof. vm_compute. repeat split. Qed.

(** C2, as stated, fails: with no model, a text of one sentence and
    [max_length = 2^1024], the product [max_length * 0.8] of the selection
    loop raises [OverflowError], and [summarize] lets it through. *)
Lemma summarize_raises_overflow :
  summarize (mkSummarizer (T := broken_transformers) None None Cpu)
    (u "a។") (2 ^ 1024) 50
  = Raise OverflowError.
Proof. vm_compute. reflexivity. Qed.

(** C2 (amended).  Whenever [max_length] converts to a float, or the text
    has no sentence, [summarize] returns a string: without a model it is the
    extractive result; with a model, any exception of the neural path
    (tokenization, generation, decoding, and also a missing tokenizer) is
    caught and the extractive result for [(text, max_length)] is returned. *)
Theorem summarize_never_raises {T : transformers} (self : KhmerSummarizer T)
  (text : str) (max_length min_length : Z) :
  sentences_of text = [] \/ (exists f, float_of_int max_length = Ok f) ->
  exists summary,
    summarize self text max_length min_length = Ok summary
    /\ (model self = None ->
        _extractive_summarize text max_length = Ok summary)
    /\ (forall m e,
           model self = Some m ->
           neural_summarize self m text max_length min_length = Raise e ->
           _extractive_summarize text max_length = Ok summary)
    /\ (forall m,
           model self = Some m -> tokenizer self = None ->
           _extractive_summarize text max_length = Ok summary).
Proof.
  intros H. destruct (extractive_returns text max_length H) as [fallback F].
  unfold summarize.
  destruct (model self) as [m |] eqn:M.
  - destruct (neural_summarize self m text max_length min_length)
      as [s | e] eqn:N; simpl try_except.
    + exists s. split; [reflexivity |]. split; [discriminate |].
      split.
      * intros m' e' [= <-] N'. congruence.
      * intros m' [= <-] Tk. unfold neural_summarize, with_tokenizer in N.
        rewrite Tk in N. discriminate.
    + exists fallback. repeat split; auto.
  - exists fallback. repeat split; auto; discriminate.
Qed.

Lemma summarize_never_raises_witness :
  (sentences_of (u "សួស្តី។ ខ្ញុំសុខសប្បាយ។") = []
   \/ (exists f, float_of_int 150 = Ok f))
  /\ exists summary,
      summarize (mkSummarizer (T := echo_transformers) (Some tt) None Cpu)
        (u "សួស្តី។ ខ្ញុំសុខសប្បាយ។") 150 50 = Ok summary
      /\ _extractive_summarize (u "សួស្តី។ ខ្ញុំសុខសប្បាយ។") 150 = Ok summary.
Proof.
  assert (sentences_of (u "សួស្តី។ ខ្ញុំសុខសប្បាយ។") = []
          \/ (exists f, float_of_int 150 = Ok f)) as H
      by (right; eexists; reflexivity).
  split; [exact H |].
  destruct (summarize_never_raises
              (mkSummarizer (T := echo_transformers) (Some tt) None Cpu)
              (u "សួស្តី។ ខ្ញុំសុខសប្បាយ។") 150 50 H)
    as (summary & S & _ & _ & A).
  exists summary. split; [exact S | apply (A tt); reflexivity].
Defined.

(** In particular every [max_length] below [2^1023] in magnitude is in the
    range. *)
Corollary summarize_returns_in_range {T : transformers}
  (self : KhmerSummarizer T) (text : str) (max_length min_length : Z) :
  (Z.abs max_length < 2 ^ 1023)%Z ->
  exists summary, summarize self text max_length min_length = Ok summary.
Proof.
  intros H. unfold summarize.
  destruct (extractive_returns text max_length
              (or_intror (float_of_int_in_range max_length H)))
    as [fallback F].
  destruct (model self) as [m |]; [| eauto].
  destruct (neural_summarize self m text max_length min_length);
    simpl; eauto.
Qed.

(** C3, as stated, fails: the text ["abcdefghij"] has no delimiter, yet it
    is a unit of its own, and the summary is the text with a delimiter
    appended, not a prefix of the text. *)
Lemma text_without_delimiter_is_a_unit :
  Forall (fun c => is_delimiter c = false) (u "abcdefghij")
  /\ sentences_of (u "abcdefghij") = [u "abcdefghij"]
  /\ _extractive_summarize (u "abcdefghij") 150 = Ok (u "abcdefghij។")
  /\ _extractive_summarize (u "abcdefghij") 150
     <> Ok (slice_to (u "abcdefghij") 150).
Proof.
  split; [repeat constructor |].
  split; [reflexivity |]. split; [vm_compute; reflexivity |].
  vm_compute. discriminate.
Qed.

(** C3 (amended).  A text with neither delimiter is split into one
    fragment, the text itself.  Its unit list is the trimmed text alone, or
    empty when the text is empty or all whitespace; in that case only, the
    summarizer returns [text[:max_length]], the first [max_length]
    characters when [max_length >= 0]. *)
Theorem segmentation_without_delimiter (text : str) (max_length : Z) :
  Forall (fun c => is_delimiter c = false) text ->
  re_split text = [text]
  /\ sentences_of text = (if str_truthy (strip text) then [strip text] else [])
  /\ (sentences_of text = [] <-> strip text = [])
  /\ (strip text = [] ->
      _extractive_summarize text max_length = Ok (slice_to text max_length)
      /\ ((0 <= max_length)%Z ->
          _extractive_summarize text max_length
          = Ok (firstn (Z.to_nat max_length) text))).
Proof.
  intros H. pose proof (re_split_no_delimiter text H) as R.
  assert (sentences_of text
          = (if str_truthy (strip text) then [strip text] else [])) as S.
  { unfold sentences_of. rewrite R. simpl.
    destruct (str_truthy (strip text)); reflexivity. }
  split; [exact R |]. split; [exact S |]. split.
  - rewrite S. destruct (strip text); simpl; split; congruence.
  - intros E.
    assert (sentences_of text = []) as N by (rewrite S, E; reflexivity).
    unfold _extractive_summarize.
    rewrite (extractive_no_sentences _ _ _ N).
    split; [reflexivity |]. intros P. rewrite slice_to_nonneg by exact P.
    reflexivity.
Qed.

Lemma segmentation_without_delimiter_witness :
  Forall (fun c => is_delimiter c = false) (u "   ")
  /\ sentences_of (u "   ") = []
  /\ _extractive_summarize (u "   ") 2 = Ok (u "  ").
Proof.
  assert (Forall (fun c => is_delimiter c = false) (u "   ")) as H
      by (repeat constructor).
  split; [exact H |].
  destruct (segmentation_without_delimiter (u "   ") 2 H)
    as (_ & _ & S & T).
  split; [apply S; reflexivity |].
  apply T; [reflexivity | lia].
Defined.

(** C4.  The units are the trimmed fragments that are not empty after
    trimming, in order; the unit at position [i] of this filtered list, of
    content [content], is scored
    [len(content) * (1 - i * 0.1 / n)] (in binary64, see [score_formula]),
    [n] being the number of units, and is recorded with the index [i]. *)
Theorem unit_scores (text : str) (i : nat) :
  sentences_of text
  = map strip (filter (fun s => str_truthy (strip s)) (re_split text))
  /\ nth_error (scored_sentences (sentences_of text)) i
     = option_map
         (fun content =>
            (score_formula (List.length content) i
               (List.length (sentences_of text)),
             content, i))
         (nth_error (sentences_of text) i).
Proof.
  split; [apply strip_nonempty_spec | apply scored_sentences_nth_error].
Qed.

(** C5.  Whatever the loop selected, in whatever order, the summary joins
    the selected units in strictly ascending order of their original index:
    the parts joined are a permutation of the selection, sorted on the
    index, and each is the sentence of that index followed by the
    delimiter. *)
Theorem summary_in_reading_order (text : str) (max_length : Z)
  (st : selection) :
  select_loop max_length
    (sort_reverse (scored_sentences (sentences_of text))) selection0
  = Ok st ->
  let parts := sort_by_index (summary_parts st) in
  Permutation parts (summary_parts st)
  /\ StronglySorted index_lt parts
  /\ Forall (fun p => exists sent,
                 nth_error (sentences_of text) (fst p) = Some sent
                 /\ snd p = sent ++ [KHAN]) parts
  /\ (summary_parts st <> [] ->
      _extractive_summarize text max_length
      = Ok (join [SPACE] (map snd parts))).
Proof.
  intros L parts.
  assert (Permutation parts (summary_parts st)) as Pp
      by apply sort_by_index_perm.
  split; [exact Pp |]. split; [| split].
  - apply (selected_sorted text max_length st L).
  - apply (Permutation_Forall (Permutation_sym Pp)).
    apply (selected_origin text max_length st L).
  - apply (selected_summary text max_length st L).
Qed.

Lemma summary_in_reading_order_witness :
  select_loop 100
    (sort_reverse (scored_sentences (sentences_of (u "ab។cde។")))) selection0
  = Ok (mkSelection [(1%nat, u "cde។"); (0%nat, u "ab។")] 7)
  /\ _extractive_summarize (u "ab។cde។") 100 = Ok (u "ab។ cde។").
Proof.
  assert (select_loop 100
            (sort_reverse (scored_sentences (sentences_of (u "ab។cde។"))))
            selection0
          = Ok (mkSelection [(1%nat, u "cde។"); (0%nat, u "ab។")] 7)) as L
      by (vm_compute; reflexivity).
  split; [exact L |].
  destruct (summary_in_reading_order (u "ab។cde។") 100 _ L) as (_ & _ & _ & R).
  rewrite R by discriminate. vm_compute. reflexivity.
Defined.

(** C6, as stated, fails: in ["aaaaaaaaaaaaaaaaaaa។bbbbbbbbbbbbbbbbbbbb។"]
    the sentence of 19 characters at index 0 and the sentence of 20
    characters at index 1 both score [19.0]; the sort puts index 1 first. *)
Lemma equal_scores_not_in_creation_order :
  map index_of
    (sort_reverse
       (scored_sentences
          (sentences_of (u "aaaaaaaaaaaaaaaaaaa។bbbbbbbbbbbbbbbbbbbb។"))))
  = [1%nat; 0%nat]
  /\ map score_of
       (sort_reverse
          (scored_sentences
             (sentences_of (u "aaaaaaaaaaaaaaaaaaa។bbbbbbbbbbbbbbbbbbbb។"))))
     = [Z2F 19; Z2F 19]
  /\ SFeqb (Z2F 19) (Z2F 19) = true.
Proof. vm_compute. repeat split. Qed.

(** C6 (amended).  The sort compares the whole tuples
    [(score, sentence, index)]: of two units, the one placed first is the
    greater tuple.  So a higher score comes first; with equal scores the
    sentence that is greater in code-point order comes first; with equal
    scores and equal sentences the larger index comes first.  (For a text
    within the size limit of Python strings.) *)
Theorem sort_reverse_order (text : str) (p q : nat) (a b : scored) :
  (len text <= sys_maxsize)%Z ->
  (p < q)%nat ->
  nth_error (sort_reverse (scored_sentences (sentences_of text))) p = Some a ->
  nth_error (sort_reverse (scored_sentences (sentences_of text))) q = Some b ->
  tuple_ltb b a = true
  /\ (SFeqb (score_of a) (score_of b) = false ->
      SFltb (score_of b) (score_of a) = true)
  /\ (SFeqb (score_of a) (score_of b) = true ->
      str_ltb (sent_of b) (sent_of a) = true
      \/ (sent_of a = sent_of b /\ (index_of b < index_of a)%nat)).
Proof.
  intros H Hpq Hp Hq.
  pose proof (StronglySorted_nth (sort_reverse_descending text H)
                p q a b Hpq Hp Hq) as G.
  unfold tuple_gt in G. split; [exact G |].
  destruct a as [[sa ca] ia], b as [[sb cb] ib].
  unfold score_of, sent_of, index_of; simpl fst; simpl snd.
  unfold tuple_ltb in G.
  destruct (SFeqb sb sa) eqn:E; simpl negb in G; cbv iota in G.
  - rewrite (SFeqb_sym _ _ E). split; [discriminate |]. intros _.
    destruct (str_eqb cb ca) eqn:S; simpl negb in G; cbv iota in G.
    + right. apply str_eqb_eq in S. apply Nat.ltb_lt in G. auto.
    + left. exact G.
  - split; [intros _; exact G |]. intros E'.
    rewrite (SFeqb_sym _ _ E') in E. discriminate.
Qed.

Lemma sort_reverse_order_witness :
  (len (u "aaaaaaaaaaaaaaaaaaa។bbbbbbbbbbbbbbbbbbbb។") <= sys_maxsize)%Z
  /\ str_ltb (u "aaaaaaaaaaaaaaaaaaa") (u "bbbbbbbbbbbbbbbbbbbb") = true.
Proof.
  assert (len (u "aaaaaaaaaaaaaaaaaaa។bbbbbbbbbbbbbbbbbbbb។") <= sys_maxsize)%Z
    as H by (vm_compute; discriminate).
  split; [exact H |].
  destruct (sort_reverse_order
              (u "aaaaaaaaaaaaaaaaaaa។bbbbbbbbbbbbbbbbbbbb។") 0 1
              (Z2F 19, u "bbbbbbbbbbbbbbbbbbbb", 1%nat)
              (Z2F 19, u "aaaaaaaaaaaaaaaaaaa", 0%nat)
              H ltac:(lia) ltac:(vm_compute; reflexivity)
              ltac:(vm_compute; reflexivity)) as (_ & _ & O).
  destruct (O ltac:(vm_compute; reflexivity)) as [L | [E _]];
    [exact L | vm_compute in E; discriminate].
Defined.

(** C7.  On the extractive path the summary is a function of [text] and
    [max_length] alone: two summarizers without a model agree, whatever
    their tokenizer, device and [min_length].  Nor does it depend on how
    the list is sorted: any [sort] that returns the scored sentences
    permuted into descending order yields the same summary, since the
    tuples are pairwise distinct and totally ordered. *)
Theorem extractive_deterministic {T : transformers}
  (s1 s2 : KhmerSummarizer T) (sort : list scored -> list scored)
  (text : str) (max_length min_length1 min_length2 : Z) :
  model s1 = None -> model s2 = None ->
  summarize s1 text max_length min_length1
  = summarize s2 text max_length min_length2
  /\ ((len text <= sys_maxsize)%Z ->
      Permutation (sort (scored_sentences (sentences_of text)))
        (scored_sentences (sentences_of text)) ->
      StronglySorted not_lt (sort (scored_sentences (sentences_of text))) ->
      extractive_with sort text max_length
      = summarize s1 text max_length min_length1).
Proof.
  intros M1 M2. unfold summarize. rewrite M1, M2.
  split; [reflexivity |]. intros H P S.
  unfold _extractive_summarize, extractive_with.
  rewrite (sort_reverse_unique _ _ (scored_sentences_orderable text H) P S).
  reflexivity.
Qed.

Lemma extractive_deterministic_witness :
  extractive_with (@rev scored) (u "ab។cde។") 100
  = summarize (mkSummarizer (T := echo_transformers) None None Cpu)
      (u "ab។cde។") 100 50.
Proof.
  apply (extractive_deterministic
           (mkSummarizer (T := echo_transformers) None None Cpu)
           (mkSummarizer (T := echo_transformers) None (Some tt) Cuda)
           (@rev scored) (u "ab។cde។") 100 50 10 eq_refl eq_refl).
  - vm_compute. discriminate.
  - apply Permutation_sym, Permutation_rev.
  - repeat constructor.
Defined.

(** C8, as stated, fails: the text ["   "] is not empty, so the first guard
    lets it pass; the second answers 400 with the too-short message, which
    is not the no-text message.  The summarizer is not called. *)
Lemma blank_text_gets_too_short_message :
  strip (u "   ") = []
  /\ api_summarize (mkSummarizer (T := broken_transformers) None None Cpu)
       int_of_digits (mkRequest (Ok (JDict [(u "text", JStr (u "   "))])))
     = (mkResponse 400 (ErrorBody TOO_SHORT), [])
  /\ TOO_SHORT <> NO_TEXT.
Proof.
  split; [reflexivity |]. split; [vm_compute; reflexivity |].
  vm_compute. discriminate.
Qed.

(** C8 (amended).  For a request whose body is an object, whose text is a
    string empty after trimming (or is missing), and whose [max_length] and
    [min_length], when given, convert to integers, the endpoint answers 400
    and never calls the summarizer; the message is the no-text message when
    the text is empty, the too-short message when it is blank but not
    empty. *)
Theorem blank_text_rejected {T : transformers}
  (summarizer : KhmerSummarizer T) (int_of_str : str -> exc Z)
  (items : list (str * json)) (s : str) (max_length min_length : Z) :
  json_get (JDict items) (u "text") (JStr []) = Ok (JStr s) ->
  strip s = [] ->
  (v <- json_get (JDict items) (u "max_length") (JInt 150) ;;
   py_int int_of_str v) = Ok max_length ->
  (v <- json_get (JDict items) (u "min_length") (JInt 50) ;;
   py_int int_of_str v) = Ok min_length ->
  api_summarize summarizer int_of_str (mkRequest (Ok (JDict items)))
  = (mkResponse 400 (ErrorBody (if str_truthy s then TOO_SHORT else NO_TEXT)),
     []).
Proof.
  intros Ht Hs Hmax Hmin. unfold api_summarize, prepare.
  cbn [get_json]. rewrite bind_ok, Ht, bind_ok.
  destruct (json_get (JDict items) (u "max_length") (JInt 150))
    as [vmax | e]; [| discriminate].
  rewrite bind_ok in Hmax. rewrite bind_ok, Hmax, bind_ok.
  destruct (json_get (JDict items) (u "min_length") (JInt 50))
    as [vmin | e]; [| discriminate].
  rewrite bind_ok in Hmin. rewrite bind_ok, Hmin, bind_ok.
  cbn [json_truthy]. destruct (str_truthy s); cbn [negb].
  - rewrite Hs. reflexivity.
  - reflexivity.
Qed.

Lemma blank_text_rejected_witness :
  api_summarize (mkSummarizer (T := echo_transformers) (Some tt) (Some tt) Cpu)
    int_of_digits
    (mkRequest (Ok (JDict [(u "max_length", JStr (u "80"));
                           (u "text", JStr (u "   "))])))
  = (mkResponse 400
       (ErrorBody (if str_truthy (u "   ") then TOO_SHORT else NO_TEXT)),
     []).
Proof.
  apply (blank_text_rejected
           (mkSummarizer (T := echo_transformers) (Some tt) (Some tt) Cpu)
           int_of_digits
           [(u "max_length", JStr (u "80")); (u "text", JStr (u "   "))]
           (u "   ") 80 50); vm_compute; reflexivity.
Defined.

(** C9, as stated, fails.  With [max_length = -3] on the text ["ab។cde។"]
    no unit is accepted: the loop leaves after its first iteration
    ([0 >= -3 * 0.8]) in its initial state, whose [current_length] is [0],
    above [max_length].  The summarizer then returns [text[:-3]]. *)
Lemma accumulated_length_exceeds_negative_max_length :
  select_loop (-3)
    (firstn 1 (sort_reverse (scored_sentences (sentences_of (u "ab។cde។")))))
    selection0
  = Ok selection0
  /\ select_loop (-3)
       (sort_reverse (scored_sentences (sentences_of (u "ab។cde។"))))
       selection0
     = Ok selection0
  /\ current_length selection0 = 0%Z
  /\ ~ (current_length selection0 <= -3)%Z
  /\ _extractive_summarize (u "ab។cde។") (-3) = Ok (u "ab។c").
Proof.
  split; [vm_compute; reflexivity |].
  split; [vm_compute; reflexivity |].
  split; [reflexivity |].
  split; [vm_compute; intros H; apply H; reflexivity |].
  vm_compute; reflexivity.
Qed.

(** C9 (amended).  At every point of the selection loop (the state after any
    number [k] of items) [current_length] is the total length of the accepted
    rendered forms, and it does not exceed [max_length] once a unit is
    accepted, nor ever when [max_length >= 0].  Hence, whenever the summary
    is a joined selection, its parts add up to at most [max_length]; the
    summary is longer by one space per gap. *)
Theorem accumulated_length_within_max_length (text : str) (max_length : Z) :
  (forall k st,
      select_loop max_length
        (firstn k (sort_reverse (scored_sentences (sentences_of text))))
        selection0 = Ok st ->
      current_length st = total_length (summary_parts st)
      /\ (summary_parts st <> [] -> (current_length st <= max_length)%Z)
      /\ ((0 <= max_length)%Z -> (current_length st <= max_length)%Z))
  /\ (forall st,
         select_loop max_length
           (sort_reverse (scored_sentences (sentences_of text)))
           selection0 = Ok st ->
         summary_parts st <> [] ->
         let parts := sort_by_index (summary_parts st) in
         _extractive_summarize text max_length
         = Ok (join [SPACE] (map snd parts))
         /\ (total_length parts <= max_length)%Z
         /\ len (join [SPACE] (map snd parts))
            = (total_length parts + (Z.of_nat (List.length parts) - 1))%Z).
Proof.
  assert (forall items st,
             select_loop max_length items selection0 = Ok st ->
             current_length st = total_length (summary_parts st)
             /\ (summary_parts st <> [] -> (current_length st <= max_length)%Z)
             /\ ((0 <= max_length)%Z -> (current_length st <= max_length)%Z))
    as Inv.
  { intros items st L.
    destruct (select_loop_spec _ _ _ _ L) as (chosen & _ & P & C & B).
    simpl in P, C. rewrite P. split; [exact C |].
    destruct chosen as [| c chosen].
    - simpl in C. simpl map.
      split; [intros X; exfalso; apply X; reflexivity | lia].
    - split; intros _; apply B; discriminate. }
  split.
  - intros k st L. apply (Inv _ _ L).
  - intros st L N parts.
    destruct (Inv _ _ L) as (C & B & _).
    assert (Permutation parts (summary_parts st)) as Pp
        by apply sort_by_index_perm.
    split; [apply (selected_summary text max_length st L N) |].
    rewrite (total_length_perm _ _ Pp). split; [rewrite <- C; apply B, N |].
    rewrite len_join.
    + rewrite (total_length_perm _ _ Pp). change (len [SPACE]) with 1%Z. lia.
    + intros E. apply N. apply Permutation_nil. rewrite <- E. exact Pp.
Qed.

Lemma accumulated_length_within_max_length_witness :
  _extractive_summarize (u "a។b។") 4 = Ok (u "a។ b។")
  /\ (total_length [(0%nat, u "a។"); (1%nat, u "b។")] <= 4)%Z.
Proof.
  destruct (accumulated_length_within_max_length (u "a។b។") 4) as [_ F].
  destruct (F (mkSelection [(0%nat, u "a។"); (1%nat, u "b។")] 4)
              ltac:(vm_compute; reflexivity) ltac:(discriminate))
    as (R & B & _).
  split; [exact R | exact B].
Defined.

(** C10, as stated, fails.  With [max_length = 2^1024] and the text ["a។"],
    whose sentence fits, the summarizer returns nothing: it raises
    [OverflowError].  And with [max_length = 2] the sentence fits and is
    selected, yet the summary ["a។"] is also [text[:2]]. *)
Lemma fallback_claim_fails :
  (0 < 2 ^ 1024)%Z
  /\ sentences_of (u "a។") = [u "a"]
  /\ fits (2 ^ 1024) (u "a")
  /\ _extractive_summarize (u "a។") (2 ^ 1024) = Raise OverflowError
  /\ fits 2 (u "a")
  /\ _extractive_summarize (u "a។") 2 = Ok (slice_to (u "a។") 2).
Proof.
  split; [reflexivity |]. split; [reflexivity |].
  split; [vm_compute; discriminate |].
  split; [vm_compute; reflexivity |].
  split; [vm_compute; discriminate | vm_compute; reflexivity].
Qed.

(** C10 (amended).  For a positive [max_length] that converts to a float
    and a text with at least one sentence, the loop ends, and it ends with
    nothing selected exactly when no sentence fits
    ([len(sentence) + 1 <= max_length]); then the summarizer returns
    [text[:max_length]].  Otherwise it returns the space-joined selection,
    which is not empty. *)
Theorem fallback_iff_nothing_fits (text : str) (max_length : Z) :
  (0 < max_length)%Z ->
  (exists f, float_of_int max_length = Ok f) ->
  sentences_of text <> [] ->
  exists st,
    select_loop max_length
      (sort_reverse (scored_sentences (sentences_of text))) selection0
    = Ok st
    /\ (summary_parts st = []
        <-> Forall (fun sent => ~ fits max_length sent) (sentences_of text))
    /\ (summary_parts st = [] ->
        _extractive_summarize text max_length
        = Ok (slice_to text max_length))
    /\ (summary_parts st <> [] ->
        _extractive_summarize text max_length
        = Ok (join [SPACE] (map snd (sort_by_index (summary_parts st))))
        /\ join [SPACE] (map snd (sort_by_index (summary_parts st))) <> []).
Proof.
  intros Hm [f F] N.
  destruct (select_loop_returns max_length f
              (sort_reverse (scored_sentences (sentences_of text))) F
              selection0) as [st L].
  exists st. split; [exact L |]. split; [| split].
  - rewrite (select_loop_first _ _ _ Hm F _ L).
    rewrite <- (scored_sentences_sents (sentences_of text)) at 2.
    rewrite Forall_map. split; intros A.
    + apply (Permutation_Forall (sort_reverse_perm _)), A.
    + apply (Permutation_Forall (Permutation_sym (sort_reverse_perm _))), A.
  - apply (selected_nothing text max_length st L N).
  - intros Np.
    assert (Permutation (sort_by_index (summary_parts st)) (summary_parts st))
      as Pp by apply sort_by_index_perm.
    split; [apply (selected_summary text max_length st L Np) |].
    apply str_truthy_true, join_truthy.
    + intros E. apply Np, Permutation_nil. rewrite <- E. exact Pp.
    + apply (Permutation_Forall (Permutation_sym Pp)).
      destruct (select_loop_spec _ _ _ _ L) as (chosen & _ & P & _).
      simpl app in P. rewrite P. apply render_nonempty.
Qed.

Lemma fallback_iff_nothing_fits_witness :
  (_extractive_summarize (u "ខ្ញុំចូលចិត្តភាសាខ្មែរ។វាស្រស់ស្អាត។") 10
   = Ok (slice_to (u "ខ្ញុំចូលចិត្តភាសាខ្មែរ។វាស្រស់ស្អាត។") 10))
  /\ Forall (fun sent => ~ fits 10 sent)
       (sentences_of (u "ខ្ញុំចូលចិត្តភាសាខ្មែរ។វាស្រស់ស្អាត។")).
Proof.
  destruct (fallback_iff_nothing_fits
              (u "ខ្ញុំចូលចិត្តភាសាខ្មែរ។វាស្រស់ស្អាត។") 10
              ltac:(lia) ltac:(eexists; reflexivity)
              ltac:(vm_compute; discriminate))
    as (st & L & I & F & _).
  assert (st = selection0) as ->
      by (vm_compute in L; injection L as <-; reflexivity).
  split; [apply F; reflexivity | apply I; reflexivity].
Defined.

(** * Further properties *)

(** ** Construction and loading *)

(** The state [load_model] leaves, case by case. *)
Lemma load_model_state {T : transformers} (R : runtime T) (path : str)
  (self : KhmerSummarizer T) :
  snd (load_model R path self)
  = if path_exists R path then
      match listdir R path with
      | Raise _ => self
      | Ok files =>
          let tk := match tokenizer_from_pretrained R path with
                    | Ok tk => Some tk
                    | Raise _ => tokenizer self
                    end in
          let m := if has_weights files then
                     match model_from_pretrained R path with
                     | Ok m => Some m
                     | Raise _ => model self
                     end
                   else model self in
          mkSummarizer m tk (device self)
      end
    else self.
Proof.
  unfold load_model, try_print, mbind, mcall, mret, set_tokenizer, set_model,
    on_model.
  destruct self as [m0 tk0 d0]. simpl snd.
  destruct (path_exists R path); [| reflexivity].
  destruct (listdir R path) as [files | e]; [| reflexivity].
  simpl. destruct (tokenizer_from_pretrained R path) as [tk | e];
    simpl; destruct (has_weights files); simpl; try reflexivity;
    destruct (model_from_pretrained R path) as [m | e']; simpl;
    try reflexivity;
    destruct (model_to R m d0); simpl; try reflexivity;
    destruct (model_eval R m); reflexivity.
Qed.

Lemma init_state {T : transformers} (R : runtime T) (path : option str) :
  snd (__init__ R path)
  = let self :=
      mkSummarizer None None (if cuda_is_available R then Cuda else Cpu) in
    match path with
    | Some p =>
        if str_truthy p && path_exists R p
        then snd (load_model R p self) else self
    | None => self
    end.
Proof.
  unfold __init__, try_print. simpl snd.
  destruct path as [p |]; [| reflexivity].
  destruct (str_truthy p && path_exists R p); reflexivity.
Qed.

Lemma str_in_In (f : str) (files : list str) :
  str_in f files = true <-> In f files.
Proof.
  unfold str_in. rewrite existsb_exists. split.
  - intros (x & Hx & E). apply str_eqb_eq in E. subst. exact Hx.
  - intros H. exists f. split; [exact H | apply str_eqb_refl].
Qed.

Lemma has_weights_In (files : list str) :
  has_weights files = true
  <-> In (u "pytorch_model.bin") files
      \/ In (u "model.safetensors") files
      \/ In (u "tf_model.h5") files.
Proof.
  unfold has_weights, WEIGHT_FILES. cbn [existsb].
  rewrite !orb_true_iff, !str_in_In. split.
  - intros [H | [H | [H | H]]];
      [left; exact H | right; left; exact H | right; right; exact H
      | discriminate H].
  - intros [H | [H | H]];
      [left; exact H | right; left; exact H | right; right; left; exact H].
Qed.





(** X3.  [load_model] never raises, leaves the device as it is, and never
    unloads: a model, and a tokenizer, present before the call are present
    after it; on a path that does not exist it changes nothing. *)
Theorem load_model_keeps_loaded {T : transformers} (R : runtime T)
  (path : str) (self : KhmerSummarizer T) :
  fst (load_model R path self) = Ok tt
  /\ device (snd (load_model R path self)) = device self
  /\ (is_loaded self = true -> is_loaded (snd (load_model R path self)) = true)
  /\ (tokenizer self <> None ->
      tokenizer (snd (load_model R path self)) <> None)
  /\ (path_exists R path = false -> snd (load_model R path self) = self).
Proof.
  split; [reflexivity |]. rewrite load_model_state.
  destruct self as [m0 tk0 d0]. unfold is_loaded. simpl.
  destruct (path_exists R path); [| repeat split; auto].
  destruct (listdir R path) as [files | e]; [| repeat split; auto; discriminate].
  simpl. repeat split.
  - destruct (has_weights files); [| auto].
    destruct (model_from_pretrained R path); auto.
  - destruct (tokenizer_from_pretrained R path); [discriminate | auto].
  - discriminate.
Qed.

Lemma load_model_keeps_loaded_witness :
  is_loaded
    (snd (load_model tokenizer_only_runtime MODEL_PATH
            (mkSummarizer (T := echo_transformers) (Some tt) None Cpu)))
  = true.
Proof.
  apply (load_model_keeps_loaded tokenizer_only_runtime MODEL_PATH
           (mkSummarizer (T := echo_transformers) (Some tt) None Cpu)).
  reflexivity.
Defined.

(** X4.  When the configured directory lists none of the weight files (or
    cannot be listed), the health endpoint of the application answers 200
    with [model_loaded] false, and every [summarize] of its summarizer is
    the extractive summary. *)
Theorem without_weights_extractive {T : transformers} (R : runtime T) :
  (forall files,
      listdir R MODEL_PATH = Ok files ->
      ~ In (u "pytorch_model.bin") files
      /\ ~ In (u "model.safetensors") files
      /\ ~ In (u "tf_model.h5") files) ->
  model_loaded (snd (api_health (app_summarizer R))) = false
  /\ fst (api_health (app_summarizer R)) = 200%Z
  /\ forall text max_length min_length,
      summarize (app_summarizer R) text max_length min_length
      = _extractive_summarize text max_length.
Proof.
  intros H.
  assert (model (app_summarizer R) = None) as M.
  { unfold app_summarizer. rewrite init_state. cbv zeta.
    destruct (str_truthy MODEL_PATH && path_exists R MODEL_PATH);
      [| reflexivity].
    rewrite load_model_state.
    destruct (path_exists R MODEL_PATH); [| reflexivity].
    destruct (listdir R MODEL_PATH) as [files | e] eqn:L; [| reflexivity].
    cbn [model]. destruct (has_weights files) eqn:W; [| reflexivity].
    exfalso. apply has_weights_In in W.
    destruct (H files eq_refl) as (A & B & C).
    destruct W as [W | [W | W]]; [exact (A W) | exact (B W) | exact (C W)]. }
  unfold api_health, is_loaded, summarize. cbn [fst snd model_loaded].
  rewrite M. repeat split.
Qed.

Lemma without_weights_extractive_witness :
  model_loaded (snd (api_health (app_summarizer tokenizer_only_runtime)))
  = false
  /\ tokenizer_loaded (snd (api_health (app_summarizer tokenizer_only_runtime)))
     = true.
Proof.
  split; [| vm_compute; reflexivity].
  apply (without_weights_extractive tokenizer_only_runtime).
  intros files [= <-]. repeat split; intros [E | [E | []]];
    vm_compute in E; discriminate.
Defined.

(** ** The handler of [/api/summarize] *)

Lemma json_get_dict (items : list (str * json)) (key : str) (default : json) :
  json_get (JDict items) key default = Ok (field items key default).
Proof. unfold json_get, field. destruct (lookup key items); reflexivity. Qed.

(** The handler on a body that is an object: the two conversions come
    first, then the guards on the text. *)
Lemma prepare_dict (int_of_str : str -> exc Z) (items : list (str * json)) :
  prepare int_of_str (mkRequest (Ok (JDict items)))
  = (max_length <- py_int int_of_str (field items (u "max_length") (JInt 150)) ;;
     min_length <- py_int int_of_str (field items (u "min_length") (JInt 50)) ;;
     let text := field items (u "text") (JStr []) in
     if negb (json_truthy text) then
       Ok (inl (mkResponse 400 (ErrorBody NO_TEXT)))
     else
       match text with
       | JStr s =>
           if (len (strip s) <? 10)%Z then
             Ok (inl (mkResponse 400 (ErrorBody TOO_SHORT)))
           else Ok (inr (s, max_length, min_length))
       | _ => Raise AttributeError
       end).
Proof.
  unfold prepare. cbn [get_json]. rewrite bind_ok.
  rewrite !json_get_dict, !bind_ok. reflexivity.
Qed.

(** A request that passes the guards: one call, on the text as received. *)
Lemma api_summarize_valid {T : transformers}
  (summarizer : KhmerSummarizer T) (int_of_str : str -> exc Z)
  (items : list (str * json)) (s : str) (max_length min_length : Z) :
  field items (u "text") (JStr []) = JStr s ->
  (10 <= len (strip s))%Z ->
  py_int int_of_str (field items (u "max_length") (JInt 150)) = Ok max_length ->
  py_int int_of_str (field items (u "min_length") (JInt 50)) = Ok min_length ->
  api_summarize summarizer int_of_str (mkRequest (Ok (JDict items)))
  = (match summarize summarizer s max_length min_length with
     | Ok summary =>
         mkResponse 200 (SummaryBody summary (len s) (len summary))
     | Raise e => mkResponse 500 (FailureBody e)
     end,
     [(s, max_length, min_length)]).
Proof.
  intros Ht Hs Hmax Hmin. unfold api_summarize.
  rewrite prepare_dict, Hmax, bind_ok, Hmin, bind_ok. cbv zeta. rewrite Ht.
  assert (json_truthy (JStr s) = true) as ->.
  { destruct s; [vm_compute in Hs; exfalso; apply Hs; reflexivity |
                 reflexivity]. }
  cbn [negb]. destruct (Z.ltb_spec (len (strip s)) 10); [lia |].
  destruct (summarize summarizer s max_length min_length); reflexivity.
Qed.

(** X5.  A request whose body is an object with a text of at least ten
    characters after trimming, and lengths that convert, makes exactly one
    call of the summarizer, on the text as received (not trimmed) and the
    converted lengths; the answer is 200 with the summary, the length of
    the received text and the length of the summary, or 500 if the
    summarizer raises. *)
Theorem valid_request_summarized {T : transformers}
  (summarizer : KhmerSummarizer T) (int_of_str : str -> exc Z)
  (items : list (str * json)) (s : str) (max_length min_length : Z) :
  field items (u "text") (JStr []) = JStr s ->
  (10 <= len (strip s))%Z ->
  py_int int_of_str (field items (u "max_length") (JInt 150)) = Ok max_length ->
  py_int int_of_str (field items (u "min_length") (JInt 50)) = Ok min_length ->
  api_summarize summarizer int_of_str (mkRequest (Ok (JDict items)))
  = (match summarize summarizer s max_length min_length with
     | Ok summary =>
         mkResponse 200 (SummaryBody summary (len s) (len summary))
     | Raise e => mkResponse 500 (FailureBody e)
     end,
     [(s, max_length, min_length)]).
Proof. apply api_summarize_valid. Qed.

Lemma valid_request_summarized_witness :
  api_summarize (mkSummarizer (T := echo_transformers) None None Cpu)
    int_of_digits
    (mkRequest (Ok (JDict [(u "text", JStr (u "  ab។cdefghij។ "))])))
  = (mkResponse 200 (SummaryBody (u "ab។ cdefghij។") 15 13),
     [(u "  ab។cdefghij។ ", 150%Z, 50%Z)]).
Proof.
  rewrite (valid_request_summarized
             (mkSummarizer (T := echo_transformers) None None Cpu)
             int_of_digits [(u "text", JStr (u "  ab។cdefghij។ "))]
             (u "  ab។cdefghij។ ") 150 50);
    try (vm_compute; reflexivity).
  vm_compute. discriminate.
Defined.

(** X6.  For a body that is an object whose [max_length] and [min_length]
    (150 and 50 when absent) both convert with [int], a non-empty text
    string shorter than ten characters once trimmed is answered 400 with the
    too-short message, without a call of the summarizer. *)
Theorem short_text_rejected {T : transformers}
  (summarizer : KhmerSummarizer T) (int_of_str : str -> exc Z)
  (items : list (str * json)) (s : str) (max_length min_length : Z) :
  field items (u "text") (JStr []) = JStr s ->
  s <> [] ->
  (len (strip s) < 10)%Z ->
  py_int int_of_str (field items (u "max_length") (JInt 150)) = Ok max_length ->
  py_int int_of_str (field items (u "min_length") (JInt 50)) = Ok min_length ->
  api_summarize summarizer int_of_str (mkRequest (Ok (JDict items)))
  = (mkResponse 400 (ErrorBody TOO_SHORT), []).
Proof.
  intros Ht Ns Hs Hmax Hmin. unfold api_summarize.
  rewrite prepare_dict, Hmax, bind_ok, Hmin, bind_ok. cbv zeta. rewrite Ht.
  cbn [json_truthy]. apply str_truthy_true in Ns. rewrite Ns. cbn [negb].
  destruct (Z.ltb_spec (len (strip s)) 10); [reflexivity | lia].
Qed.

Lemma short_text_rejected_witness :
  api_summarize (mkSummarizer (T := echo_transformers) (Some tt) (Some tt) Cpu)
    int_of_digits
    (mkRequest (Ok (JDict [(u "text", JStr (u "   សួស្តី។   "))])))
  = (mkResponse 400 (ErrorBody TOO_SHORT), []).
Proof.
  apply (short_text_rejected
           (mkSummarizer (T := echo_transformers) (Some tt) (Some tt) Cpu)
           int_of_digits [(u "text", JStr (u "   សួស្តី។   "))]
           (u "   សួស្តី។   ") 150 50);
    try (vm_compute; reflexivity).
  vm_compute. discriminate.
Defined.

(** X7.  For a body that is an object whose [max_length] and [min_length]
    (150 and 50 when absent) both convert with [int], a text that is false
    in Python (missing, empty string, null, zero, false, empty list or
    object) is answered 400 with the no-text message, without a call of the
    summarizer. *)
Theorem falsy_text_rejected {T : transformers}
  (summarizer : KhmerSummarizer T) (int_of_str : str -> exc Z)
  (items : list (str * json)) (max_length min_length : Z) :
  json_truthy (field items (u "text") (JStr [])) = false ->
  py_int int_of_str (field items (u "max_length") (JInt 150)) = Ok max_length ->
  py_int int_of_str (field items (u "min_length") (JInt 50)) = Ok min_length ->
  api_summarize summarizer int_of_str (mkRequest (Ok (JDict items)))
  = (mkResponse 400 (ErrorBody NO_TEXT), []).
Proof.
  intros Ht Hmax Hmin. unfold api_summarize.
  rewrite prepare_dict, Hmax, bind_ok, Hmin, bind_ok. cbv zeta. rewrite Ht.
  reflexivity.
Qed.

Lemma falsy_text_rejected_witness :
  api_summarize (mkSummarizer (T := echo_transformers) (Some tt) (Some tt) Cpu)
    int_of_digits
    (mkRequest (Ok (JDict [(u "text", JInt 0); (u "max_length", JBool true)])))
  = (mkResponse 400 (ErrorBody NO_TEXT), []).
Proof.
  apply (falsy_text_rejected
           (mkSummarizer (T := echo_transformers) (Some tt) (Some tt) Cpu)
           int_of_digits
           [(u "text", JInt 0); (u "max_length", JBool true)] 1 50);
    vm_compute; reflexivity.
Defined.

(** X8.  For a body that is an object whose [max_length] and [min_length]
    (150 and 50 when absent) both convert with [int], a text that is true in
    Python and not a string (a non-zero number, a non-empty list) is
    answered 500 with an [AttributeError], since it has no [strip]; the
    summarizer is not called. *)
Theorem non_string_text_fails {T : transformers}
  (summarizer : KhmerSummarizer T) (int_of_str : str -> exc Z)
  (items : list (str * json)) (max_length min_length : Z) :
  json_truthy (field items (u "text") (JStr [])) = true ->
  is_str (field items (u "text") (JStr [])) = false ->
  py_int int_of_str (field items (u "max_length") (JInt 150)) = Ok max_length ->
  py_int int_of_str (field items (u "min_length") (JInt 50)) = Ok min_length ->
  api_summarize summarizer int_of_str (mkRequest (Ok (JDict items)))
  = (mkResponse 500 (FailureBody AttributeError), []).
Proof.
  intros Ht Hs Hmax Hmin. unfold api_summarize.
  rewrite prepare_dict, Hmax, bind_ok, Hmin, bind_ok. cbv zeta. rewrite Ht.
  cbn [negb]. destruct (field items (u "text") (JStr []));
    try reflexivity. discriminate.
Qed.

Lemma non_string_text_fails_witness :
  api_summarize (mkSummarizer (T := echo_transformers) (Some tt) (Some tt) Cpu)
    int_of_digits
    (mkRequest (Ok (JDict [(u "text", JInt 12345678901)])))
  = (mkResponse 500 (FailureBody AttributeError), []).
Proof.
  apply (non_string_text_fails
           (mkSummarizer (T := echo_transformers) (Some tt) (Some tt) Cpu)
           int_of_digits [(u "text", JInt 12345678901)] 150 50);
    vm_compute; reflexivity.
Defined.

(** X9.  The lengths are converted before the text is looked at: when
    [max_length], or then [min_length], does not convert, the answer is 500
    with that error whatever the text, and the summarizer is not called. *)
Theorem bad_length_fails_first {T : transformers}
  (summarizer : KhmerSummarizer T) (int_of_str : str -> exc Z)
  (items : list (str * json)) (e : pyexn) :
  py_int int_of_str (field items (u "max_length") (JInt 150)) = Raise e
  \/ ((exists n,
          py_int int_of_str (field items (u "max_length") (JInt 150)) = Ok n)
      /\ py_int int_of_str (field items (u "min_length") (JInt 50)) = Raise e) ->
  api_summarize summarizer int_of_str (mkRequest (Ok (JDict items)))
  = (mkResponse 500 (FailureBody e), []).
Proof.
  intros H. unfold api_summarize. rewrite prepare_dict.
  destruct H as [Hmax | [[n Hmax] Hmin]].
  - rewrite Hmax. reflexivity.
  - rewrite Hmax, bind_ok, Hmin. reflexivity.
Qed.

Lemma bad_length_fails_first_witness :
  api_summarize (mkSummarizer (T := echo_transformers) None None Cpu)
    int_of_digits
    (mkRequest (Ok (JDict [(u "max_length", JNull)])))
  = (mkResponse 500 (FailureBody TypeError), []).
Proof.
  apply (bad_length_fails_first
           (mkSummarizer (T := echo_transformers) None None Cpu)
           int_of_digits [(u "max_length", JNull)] TypeError).
  left. vm_compute. reflexivity.
Defined.

(** X10.  Every request is answered 400, 500 or 200 and calls the
    summarizer at most once.  A 400 carries one of the two messages and
    follows no call; a 200 follows a call that returned, on a text of at
    least ten characters after trimming, and reports the lengths of that
    text and of that summary; a 500 after a call carries the exception the
    summarizer raised. *)
Theorem api_summarize_outcomes {T : transformers}
  (summarizer : KhmerSummarizer T) (int_of_str : str -> exc Z)
  (req : request) :
  let resp := fst (api_summarize summarizer int_of_str req) in
  let calls := snd (api_summarize summarizer int_of_str req) in
  (status resp = 400%Z /\ calls = []
   /\ (payload resp = ErrorBody NO_TEXT \/ payload resp = ErrorBody TOO_SHORT))
  \/ (status resp = 500%Z /\ calls = []
      /\ exists e, payload resp = FailureBody e)
  \/ (exists text max_length min_length,
         calls = [(text, max_length, min_length)]
         /\ (10 <= len (strip text))%Z
         /\ ((exists summary,
                 summarize summarizer text max_length min_length = Ok summary
                 /\ resp = mkResponse 200
                             (SummaryBody summary (len text) (len summary)))
             \/ (exists e,
                    summarize summarizer text max_length min_length = Raise e
                    /\ resp = mkResponse 500 (FailureBody e)))).
Proof.
  cbv zeta. unfold api_summarize.
  destruct (prepare int_of_str req) as [[early | [[text ml] mn]] | e] eqn:P.
  - unfold prepare in P.
    destruct (get_json req) as [data | e]; [| discriminate].
    rewrite bind_ok in P.
    destruct (json_get data (u "text") (JStr [])) as [text | e];
      [| discriminate].
    rewrite bind_ok in P.
    destruct (json_get data (u "max_length") (JInt 150)) as [v1 | e];
      [| discriminate].
    rewrite bind_ok in P.
    destruct (py_int int_of_str v1) as [n1 | e]; [| discriminate].
    rewrite bind_ok in P.
    destruct (json_get data (u "min_length") (JInt 50)) as [v2 | e];
      [| discriminate].
    rewrite bind_ok in P.
    destruct (py_int int_of_str v2) as [n2 | e]; [| discriminate].
    rewrite bind_ok in P.
    destruct (negb (json_truthy text)).
    + injection P as <-. left. cbn [fst snd status payload].
      split; [reflexivity |]. split; [reflexivity |]. left. reflexivity.
    + destruct text; try discriminate.
      destruct (len (strip s) <? 10)%Z; [| discriminate].
      injection P as <-. left. cbn [fst snd status payload].
      split; [reflexivity |]. split; [reflexivity |]. right. reflexivity.
  - right. right. exists text, ml, mn.
    assert (10 <= len (strip text))%Z as Hs.
    { unfold prepare in P.
      destruct (get_json req) as [data | e]; [| discriminate].
      rewrite bind_ok in P.
      destruct (json_get data (u "text") (JStr [])) as [t | e];
        [| discriminate].
      rewrite bind_ok in P.
      destruct (json_get data (u "max_length") (JInt 150)) as [v1 | e];
        [| discriminate].
      rewrite bind_ok in P.
      destruct (py_int int_of_str v1) as [n1 | e]; [| discriminate].
      rewrite bind_ok in P.
      destruct (json_get data (u "min_length") (JInt 50)) as [v2 | e];
        [| discriminate].
      rewrite bind_ok in P.
      destruct (py_int int_of_str v2) as [n2 | e]; [| discriminate].
      rewrite bind_ok in P.
      destruct (negb (json_truthy t)); [discriminate |].
      destruct t; try discriminate.
      destruct (Z.ltb_spec (len (strip s)) 10); [discriminate |].
      injection P as <- _ _. assumption. }
    destruct (summarize summarizer text ml mn) as [summary | e];
      cbn [fst snd]; (split; [reflexivity |]); (split; [exact Hs |]).
    + left. exists summary. split; reflexivity.
    + right. exists e. split; reflexivity.
  - right. left. cbn [fst snd status payload].
    split; [reflexivity |]. split; [reflexivity |]. exists e. reflexivity.
Qed.

(** X11.  A body that cannot be decoded, or that is not an object (a list,
    a string, null), is answered 500 without a call of the summarizer. *)
Theorem body_not_an_object_fails {T : transformers}
  (summarizer : KhmerSummarizer T) (int_of_str : str -> exc Z)
  (req : request) :
  (forall e, get_json req = Raise e ->
             api_summarize summarizer int_of_str req
             = (mkResponse 500 (FailureBody e), []))
  /\ (forall data,
         get_json req = Ok data ->
         (forall items, data <> JDict items) ->
         api_summarize summarizer int_of_str req
         = (mkResponse 500 (FailureBody AttributeError), [])).
Proof.
  split.
  - intros e E. unfold api_summarize, prepare. rewrite E. reflexivity.
  - intros data E N. unfold api_summarize, prepare. rewrite E, bind_ok.
    destruct data; try reflexivity. exfalso. apply (N items). reflexivity.
Qed.

Lemma body_not_an_object_fails_witness :
  api_summarize (mkSummarizer (T := echo_transformers) None None Cpu)
    int_of_digits (mkRequest (Ok (JList [JStr (u "សួស្តី")])))
  = (mkResponse 500 (FailureBody AttributeError), []).
Proof.
  destruct (body_not_an_object_fails
              (mkSummarizer (T := echo_transformers) None None Cpu)
              int_of_digits (mkRequest (Ok (JList [JStr (u "សួស្តី")]))))
    as [_ H].
  apply (H (JList [JStr (u "សួស្តី")])); [reflexivity | discriminate].
Defined.

(** ** The extractive summary *)

Lemma len_slice_to (s : str) (n : Z) :
  (0 <= n)%Z -> (len (slice_to s n) <= n)%Z.
Proof.
  intros H. rewrite slice_to_nonneg by exact H. unfold len.
  pose proof (firstn_le_length (Z.to_nat n) s). lia.
Qed.

Lemma sorted_sentences_nonempty (text : str) :
  Forall (fun item => sent_of item <> [])
    (sort_reverse (scored_sentences (sentences_of text))).
Proof.
  apply (Permutation_Forall (Permutation_sym (sort_reverse_perm _))).
  apply (proj1 (Forall_map sent_of (fun s => s <> []) _)).
  rewrite scored_sentences_sents. unfold sentences_of.
  apply strip_nonempty_nonempty.
Qed.

(** Every rendered form counts two characters at least. *)
Lemma total_length_render (chosen : list scored) :
  Forall (fun item => sent_of item <> []) chosen ->
  (2 * Z.of_nat (List.length chosen) <= total_length (map render chosen))%Z.
Proof.
  induction 1 as [| c chosen Hc F IH]; [simpl; lia |].
  change (total_length (map render (c :: chosen)))
    with (len (snd (render c)) + total_length (map render chosen))%Z.
  rewrite len_render. change (List.length (c :: chosen))
    with (S (List.length chosen)).
  assert (1 <= len (sent_of c))%Z.
  { unfold len. destruct (sent_of c); [congruence | simpl; lia]. }
  lia.
Qed.

Lemma subseq_Forall {A : Type} (P : A -> Prop) (l1 l2 : list A) :
  subseq l1 l2 -> Forall P l2 -> Forall P l1.
Proof.
  intros S F. rewrite Forall_forall in *. intros x Hx.
  apply F, (subseq_incl S), Hx.
Qed.

(** X12.  For [max_length >= 0] the extractive summary has at most
    [1.5 * max_length] characters, and at most [max_length] when the text
    has no sentence: the selected parts are within [max_length] and each,
    two characters at least, brings one separating space at most. *)
Theorem summary_length_bound (text : str) (max_length : Z) (summary : str) :
  (0 <= max_length)%Z ->
  _extractive_summarize text max_length = Ok summary ->
  (2 * len summary <= 3 * max_length)%Z
  /\ (sentences_of text = [] -> (len summary <= max_length)%Z).
Proof.
  intros Hm E. unfold _extractive_summarize in E.
  destruct (sentences_of text) as [| s0 rest] eqn:Es.
  - rewrite (extractive_no_sentences _ _ _ Es) in E. injection E as <-.
    pose proof (len_slice_to text max_length Hm). split; [lia | auto].
  - split; [| discriminate].
    rewrite extractive_selection in E by congruence.
    destruct (select_loop max_length
                (sort_reverse (scored_sentences (sentences_of text)))
                selection0) as [st | e] eqn:L; [| discriminate].
    rewrite bind_ok in E. injection E as <-.
    destruct (select_loop_spec _ _ _ _ L) as (chosen & S & P & C & B).
    simpl in P, C. unfold result_of. rewrite P.
    destruct chosen as [| c chosen].
    + cbn [map]. pose proof (len_slice_to text max_length Hm). lia.
    + set (l := c :: chosen) in *.
      change (map render l) with (render c :: map render chosen) at 1.
      cbv iota.
      assert (Permutation (sort_by_index (map render l)) (map render l))
        as Pp by apply sort_by_index_perm.
      rewrite len_join.
      * rewrite (total_length_perm _ _ Pp), (Permutation_length Pp).
        rewrite length_map. change (len [SPACE]) with 1%Z.
        pose proof (total_length_render l
                      (subseq_Forall _ _ _ S (sorted_sentences_nonempty text))).
        assert (current_length st <= max_length)%Z
          by (apply B; discriminate).
        lia.
      * intros N. apply sort_by_index_nil in N. discriminate.
Qed.

Lemma summary_length_bound_witness :
  (2 * len (u "a។ b។") <= 3 * 4)%Z.
Proof.
  apply (summary_length_bound (u "a។b។") 4 (u "a។ b។"));
    [lia | vm_compute; reflexivity].
Defined.

(** What the loop accepts fits. *)
Lemma select_loop_chosen_fit (max_length : Z) (items : list scored) :
  forall st st',
    select_loop max_length items st = Ok st' ->
    (0 <= current_length st)%Z ->
    exists chosen,
      subseq chosen items
      /\ summary_parts st' = summary_parts st ++ map render chosen
      /\ Forall (fun c => fits max_length (sent_of c)) chosen.
Proof.
  induction items as [| item rest IH]; intros st st' H Hc.
  - simpl in H. injection H as <-. exists []. simpl.
    rewrite app_nil_r. repeat split; constructor.
  - destruct (select_loop_float (items := item :: rest) ltac:(discriminate) H)
      as [f E].
    rewrite (select_loop_cons _ _ _ E) in H.
    assert (0 <= current_length (accept max_length st item))%Z as Hc'.
    { unfold accept. destruct (_ <=? _)%Z; simpl; [| exact Hc].
      pose proof (len_nonneg (sent_of item)). lia. }
    assert (exists chosen,
               subseq chosen rest
               /\ summary_parts st'
                  = summary_parts (accept max_length st item)
                      ++ map render chosen
               /\ Forall (fun c => fits max_length (sent_of c)) chosen)
      as (chosen & S & P & F).
    { destruct (int_ge_float _ _).
      - injection H as <-. exists []. simpl. rewrite app_nil_r.
        repeat split; [| constructor].
        clear. induction rest; constructor; assumption.
      - apply (IH _ _ H Hc'). }
    unfold accept in P.
    destruct (Z.leb_spec (current_length st + (len (sent_of item) + 1))
                max_length) as [L | L]; simpl summary_parts in P.
    + exists (item :: chosen). rewrite <- app_assoc in P.
      repeat split; [constructor; exact S | exact P |].
      constructor; [unfold fits; lia | exact F].
    + exists chosen. repeat split; [constructor; exact S | exact P | exact F].
Qed.

(** X13.  For [max_length <= 1] (above [-2^1023]) nothing can be selected
    and the summary is [text[:max_length]]: the empty string for 0, the
    first character for 1, and for a negative value the text without its
    last [-max_length] characters. *)
Theorem tiny_max_length_truncates (text : str) (max_length : Z) :
  (- 2 ^ 1023 < max_length <= 1)%Z ->
  _extractive_summarize text max_length = Ok (slice_to text max_length).
Proof.
  intros [Lo Hi]. unfold _extractive_summarize.
  destruct (sentences_of text) as [| s0 rest] eqn:Es.
  - apply extractive_no_sentences, Es.
  - rewrite extractive_selection by congruence.
    destruct (float_of_int_in_range max_length ltac:(lia)) as [f F].
    destruct (select_loop_returns max_length f
                (sort_reverse (scored_sentences (sentences_of text))) F
                selection0) as [st L].
    rewrite L, bind_ok. f_equal. unfold result_of.
    destruct (select_loop_chosen_fit _ _ _ _ L ltac:(simpl; lia))
      as (chosen & S & P & Fc).
    simpl in P. rewrite P.
    destruct chosen as [| c chosen]; [reflexivity |]. exfalso.
    inversion Fc as [| ? ? Hc _]; subst.
    pose proof (subseq_Forall _ _ _ S (sorted_sentences_nonempty text)) as N.
    inversion N as [| ? ? Nc _]; subst.
    unfold fits, len in Hc. destruct (sent_of c); [congruence |].
    simpl in Hc. lia.
Qed.

Lemma tiny_max_length_truncates_witness :
  _extractive_summarize (u "ab។cde។") (-3) = Ok (u "ab។c").
Proof.
  rewrite (tiny_max_length_truncates (u "ab។cde។") (-3));
    [vm_compute; reflexivity |].
  split; [vm_compute; reflexivity | lia].
Defined.

(** The loop only adds to its state. *)
Lemma select_loop_grows (max_length : Z) (items : list scored)
  (st st' : selection) :
  select_loop max_length items st = Ok st' ->
  (current_length st <= current_length st')%Z
  /\ incl (summary_parts st) (summary_parts st').
Proof.
  intros L. destruct (select_loop_spec _ _ _ _ L) as (chosen & _ & P & C & _).
  split.
  - pose proof (total_length_nonneg (map render chosen)). lia.
  - rewrite P. apply incl_appl, incl_refl.
Qed.

Lemma accept_grows (max_length : Z) (st : selection) (item : scored) :
  (current_length st <= current_length (accept max_length st item))%Z.
Proof.
  unfold accept. destruct (_ <=? _)%Z; simpl; [| lia].
  pose proof (len_nonneg (sent_of item)). lia.
Qed.

(** When the loop ends, either it left at the threshold or no sentence left
    out fits in what remains of the budget. *)
Lemma select_loop_exhaustive (max_length : Z) (f : float)
  (items : list scored) :
  float_of_int max_length = Ok f ->
  forall st st',
    select_loop max_length items st = Ok st' ->
    int_ge_float (current_length st') (fmul f f0_8) = true
    \/ Forall (fun item =>
                 In (render item) (summary_parts st')
                 \/ (max_length
                     < current_length st' + (len (sent_of item) + 1))%Z)
         items.
Proof.
  intros E. induction items as [| item rest IH]; intros st st' L.
  - right. constructor.
  - rewrite (select_loop_cons _ _ _ E) in L.
    destruct (int_ge_float (current_length (accept max_length st item))
                (fmul f f0_8)) eqn:G.
    + injection L as <-. left. exact G.
    + destruct (IH _ _ L) as [B | F]; [left; exact B | right].
      constructor; [| exact F].
      destruct (select_loop_grows _ _ _ _ L) as [Gc Gp].
      unfold accept in Gc, Gp.
      destruct (Z.leb_spec (current_length st + (len (sent_of item) + 1))
                  max_length) as [A | A]; simpl in Gc, Gp.
      * left. apply Gp, in_or_app. right. left. reflexivity.
      * right. lia.
Qed.

(** X14.  When the selection loop ends, either the accumulated length has
    reached [max_length * 0.8], or every sentence of the text is in the
    selection or is too long for what remains of [max_length]. *)
Theorem selection_is_exhaustive (text : str) (max_length : Z) (f : float)
  (st : selection) :
  float_of_int max_length = Ok f ->
  select_loop max_length
    (sort_reverse (scored_sentences (sentences_of text))) selection0
  = Ok st ->
  int_ge_float (current_length st) (fmul f f0_8) = true
  \/ (forall i sent,
         nth_error (sentences_of text) i = Some sent ->
         In (i, sent ++ [KHAN]) (summary_parts st)
         \/ (max_length < current_length st + (len sent + 1))%Z).
Proof.
  intros E L.
  destruct (select_loop_exhaustive _ _ _ E _ _ L) as [B | F];
    [left; exact B | right].
  intros i sent Hi.
  assert (In (score_formula (List.length sent) i
                (List.length (sentences_of text)), sent, i)
            (sort_reverse (scored_sentences (sentences_of text)))) as Hin.
  { apply (Permutation_in _ (Permutation_sym (sort_reverse_perm _))).
    apply (nth_error_In _ i).
    rewrite scored_sentences_nth_error, Hi. reflexivity. }
  rewrite Forall_forall in F. apply (F _ Hin).
Qed.

Lemma selection_is_exhaustive_witness :
  In (0%nat, u "abcdefg" ++ [KHAN]) [(1%nat, u "cdefghijk។")]
  \/ (15 < 10 + (len (u "abcdefg") + 1))%Z.
Proof.
  destruct (selection_is_exhaustive (u "abcdefg។cdefghijk។") 15 (Z2F 15)
              (mkSelection [(1%nat, u "cdefghijk។")] 10)
              ltac:(vm_compute; reflexivity) ltac:(vm_compute; reflexivity))
    as [B | F].
  - vm_compute in B. discriminate.
  - apply (F 0%nat (u "abcdefg")). vm_compute. reflexivity.
Defined.

Lemma accept_unfit (max_length : Z) (item : scored) :
  ~ fits max_length (sent_of item) ->
  accept max_length selection0 item = selection0.
Proof.
  intros N. unfold accept, fits in *. simpl current_length.
  destruct (Z.leb_spec (0 + (len (sent_of item) + 1)) max_length);
    [lia | reflexivity].
Qed.

(** With a positive [max_length], the loop passes over the sentences that
    do not fit without a change of state. *)
Lemma select_loop_skip (max_length : Z) (f : float) (skipped rest : list scored) :
  (0 < max_length)%Z -> float_of_int max_length = Ok f ->
  Forall (fun item => ~ fits max_length (sent_of item)) skipped ->
  select_loop max_length (skipped ++ rest) selection0
  = select_loop max_length rest selection0.
Proof.
  intros Hm E. induction 1 as [| item skipped N F IH]; [reflexivity |].
  simpl app. rewrite (select_loop_cons _ _ _ E), (accept_unfit _ _ N).
  change (current_length selection0) with 0%Z.
  rewrite (threshold_positive _ _ Hm E). exact IH.
Qed.

(** X15.  For a positive [max_length], the first sentence in descending
    order of the tuples that fits on its own is always selected, and it is
    the first one selected. *)
Theorem best_fitting_sentence_selected (text : str) (max_length : Z)
  (skipped rest : list scored) (item : scored) (st : selection) :
  (0 < max_length)%Z ->
  sort_reverse (scored_sentences (sentences_of text))
  = skipped ++ item :: rest ->
  Forall (fun other => ~ fits max_length (sent_of other)) skipped ->
  fits max_length (sent_of item) ->
  select_loop max_length
    (sort_reverse (scored_sentences (sentences_of text))) selection0
  = Ok st ->
  hd_error (summary_parts st) = Some (index_of item, sent_of item ++ [KHAN])
  /\ nth_error (sentences_of text) (index_of item) = Some (sent_of item).
Proof.
  intros Hm D F Hf L. split.
  - rewrite D in L.
    destruct (select_loop_float (items := skipped ++ item :: rest)
                ltac:(destruct skipped; discriminate) L) as [f E].
    rewrite (select_loop_skip _ _ _ _ Hm E F) in L.
    rewrite (select_loop_cons _ _ _ E) in L.
    assert (accept max_length selection0 item
            = mkSelection [render item] (0 + (len (sent_of item) + 1))) as A.
    { unfold accept, fits in *. simpl current_length.
      destruct (Z.leb_spec (0 + (len (sent_of item) + 1)) max_length);
        [reflexivity | lia]. }
    rewrite A in L.
    destruct (int_ge_float _ _).
    + injection L as <-. reflexivity.
    + destruct (select_loop_spec _ _ _ _ L) as (chosen & _ & P & _).
      rewrite P. reflexivity.
  - apply scored_sentences_In.
    apply (Permutation_in _ (sort_reverse_perm _)).
    rewrite D. apply in_or_app. right. left. reflexivity.
Qed.

Lemma best_fitting_sentence_selected_witness :
  hd_error (summary_parts (mkSelection [(1%nat, u "វាស្រស់ស្អាត។")] 13))
  = Some (index_of (score_formula 12 1 2, u "វាស្រស់ស្អាត", 1%nat),
          sent_of (score_formula 12 1 2, u "វាស្រស់ស្អាត", 1%nat) ++ [KHAN]).
Proof.
  refine (proj1 (best_fitting_sentence_selected
                   (u "ខ្ញុំចូលចិត្តភាសាខ្មែរ។វាស្រស់ស្អាត។") 20
                   [(score_formula 22 0 2, u "ខ្ញុំចូលចិត្តភាសាខ្មែរ", 0%nat)] []
                   (score_formula 12 1 2, u "វាស្រស់ស្អាត", 1%nat)
                   (mkSelection [(1%nat, u "វាស្រស់ស្អាត។")] 13) _ _ _ _ _)).
  - lia.
  - vm_compute. reflexivity.
  - constructor; [| constructor]. vm_compute. intros H. apply H. reflexivity.
  - vm_compute. discriminate.
  - vm_compute. reflexivity.
Defined.

(** X16.  A text of a single sentence that fits is summarized as that
    sentence, trimmed, followed by the delimiter ។ (also when the text had
    no delimiter, or the other one). *)
Theorem single_sentence_summary (text sent : str) (max_length : Z) :
  sentences_of text = [sent] ->
  fits max_length sent ->
  (exists f, float_of_int max_length = Ok f) ->
  _extractive_summarize text max_length = Ok (sent ++ [KHAN]).
Proof.
  intros Es Hf [f E]. unfold _extractive_summarize.
  rewrite extractive_selection by (rewrite Es; discriminate).
  rewrite Es, scored_sentences_spec. unfold enumerate.
  cbn [List.length seq combine map sort_reverse insert_desc].
  rewrite (select_loop_cons _ _ _ E).
  set (item := scored_at 1 (0%nat, sent)).
  assert (accept max_length selection0 item
          = mkSelection [(0%nat, sent ++ [KHAN])] (0 + (len sent + 1))) as A.
  { unfold accept, fits in *. simpl current_length.
    change (sent_of item) with sent.
    destruct (Z.leb_spec (0 + (len sent + 1)) max_length);
      [reflexivity | lia]. }
  rewrite A.
  destruct (int_ge_float _ _); reflexivity.
Qed.

Lemma single_sentence_summary_witness :
  _extractive_summarize (u "  សួស្តីពិភពលោក  ") 150
  = Ok (u "សួស្តីពិភពលោក" ++ [KHAN]).
Proof.
  refine (single_sentence_summary (u "  សួស្តីពិភពលោក  ") (u "សួស្តីពិភពលោក") 150
            _ _ _).
  - vm_compute. reflexivity.
  - vm_compute. discriminate.
  - eexists. vm_compute. reflexivity.
Defined.

(** ** Segmentation *)

Lemma lstrip_split (s : str) :
  exists pre, s = pre ++ lstrip s /\ Forall (fun c => isspace c = true) pre.
Proof.
  induction s as [| c s (pre & E & F)]; simpl.
  - exists []. split; [reflexivity | constructor].
  - destruct (isspace c) eqn:W.
    + exists (c :: pre). split; [simpl; congruence | constructor; assumption].
    + exists []. split; [reflexivity | constructor].
Qed.

Lemma lstrip_hd (s : str) (c : char) :
  hd_error (lstrip s) = Some c -> isspace c = false.
Proof.
  induction s as [| x s IH]; simpl; [discriminate |].
  destruct (isspace x) eqn:W; [exact IH |]. simpl. intros [= <-]. exact W.
Qed.

Lemma rstrip_split (s : str) :
  exists post, s = rstrip s ++ post /\ Forall (fun c => isspace c = true) post.
Proof.
  unfold rstrip. destruct (lstrip_split (rev s)) as (pre & E & F).
  exists (rev pre). split.
  - rewrite <- rev_app_distr, <- E, rev_involutive. reflexivity.
  - apply Forall_rev, F.
Qed.

Lemma rstrip_last (s init : str) (c : char) :
  rstrip s = init ++ [c] -> isspace c = false.
Proof.
  unfold rstrip. intros E. apply (f_equal (@rev char)) in E.
  rewrite rev_involutive, rev_app_distr in E. simpl in E.
  apply (lstrip_hd (rev s)). rewrite E. reflexivity.
Qed.

(** [strip] cuts whitespace, and only whitespace, off both ends. *)
Lemma strip_split (s : str) :
  exists pre post,
    s = pre ++ strip s ++ post
    /\ Forall (fun c => isspace c = true) pre
    /\ Forall (fun c => isspace c = true) post.
Proof.
  unfold strip. destruct (lstrip_split s) as (pre & E & F).
  destruct (rstrip_split (lstrip s)) as (post & E' & F').
  exists pre, post. split; [| split; assumption].
  rewrite <- E'. exact E.
Qed.

Lemma strip_ends (s : str) :
  (forall c, hd_error (strip s) = Some c -> isspace c = false)
  /\ (forall init c, strip s = init ++ [c] -> isspace c = false).
Proof.
  split.
  - intros c H. apply (lstrip_hd s).
    unfold strip in H. destruct (rstrip_split (lstrip s)) as (post & E & _).
    rewrite E. destruct (rstrip (lstrip s)); [discriminate | exact H].
  - intros init c H. apply (rstrip_last (lstrip s) init). exact H.
Qed.

Lemma re_split_cons (text : str) :
  exists frag frags, re_split text = frag :: frags.
Proof.
  destruct text as [| c rest]; simpl; [eauto |].
  destruct (is_delimiter c); [eauto |].
  destruct (re_split rest); eauto.
Qed.

Lemma re_split_no_delimiter_inside (text : str) :
  Forall (Forall (fun c => is_delimiter c = false)) (re_split text).
Proof.
  induction text as [| c rest IH]; simpl.
  - repeat constructor.
  - destruct (is_delimiter c) eqn:D.
    + constructor; [constructor | exact IH].
    + destruct (re_split rest) as [| frag frags].
      * repeat constructor. exact D.
      * inversion IH as [| ? ? Hf Hfs]; subst.
        constructor; [constructor; assumption | exact Hfs].
Qed.

(** The first fragment starts the text; every fragment is a piece of it. *)
Lemma re_split_pieces (text : str) :
  (forall frag frags, re_split text = frag :: frags ->
                      exists post, text = frag ++ post)
  /\ (forall frag, In frag (re_split text) ->
                   exists pre post, text = pre ++ frag ++ post).
Proof.
  induction text as [| c rest [IH1 IH2]]; simpl.
  - split.
    + intros frag frags [= <- <-]. exists []. reflexivity.
    + intros frag [<- | []]. exists [], []. reflexivity.
  - destruct (is_delimiter c).
    + split.
      * intros frag frags [= <- <-]. exists (c :: rest). reflexivity.
      * intros frag [<- | H].
        -- exists [], (c :: rest). reflexivity.
        -- destruct (IH2 frag H) as (pre & post & E).
           exists (c :: pre), post. simpl. congruence.
    + destruct (re_split rest) as [| f fs] eqn:R.
      * destruct (re_split_cons rest) as (f & fs & E). congruence.
      * destruct (IH1 f fs eq_refl) as (post1 & E1). split.
        -- intros frag frags [= <- <-]. exists post1. simpl. congruence.
        -- intros frag [<- | H].
           ++ exists [], post1. simpl. congruence.
           ++ destruct (IH2 frag (or_intror H)) as (pre & post & E).
              exists (c :: pre), post. simpl. congruence.
Qed.

Lemma sentences_of_In (text sent : str) :
  In sent (sentences_of text) ->
  exists frag, In frag (re_split text) /\ sent = strip frag /\ sent <> [].
Proof.
  unfold sentences_of. rewrite strip_nonempty_spec, in_map_iff.
  intros (frag & <- & H). apply filter_In in H. destruct H as [H T].
  exists frag. split; [exact H |]. split; [reflexivity |].
  apply str_truthy_true, T.
Qed.

(** X17.  Every sentence the segmentation yields is non-empty, holds
    neither delimiter, neither starts nor ends with whitespace, and occurs
    in the text as it is. *)
Theorem sentences_are_trimmed_pieces (text sent : str) :
  In sent (sentences_of text) ->
  sent <> []
  /\ Forall (fun c => is_delimiter c = false) sent
  /\ (forall c, hd_error sent = Some c -> isspace c = false)
  /\ (forall init c, sent = init ++ [c] -> isspace c = false)
  /\ exists pre post, text = pre ++ sent ++ post.
Proof.
  intros H. destruct (sentences_of_In _ _ H) as (frag & Hf & -> & N).
  destruct (strip_split frag) as (p1 & p2 & E & _ & _).
  split; [exact N |]. split; [| split; [| split]].
  - pose proof (re_split_no_delimiter_inside text) as D.
    rewrite Forall_forall in D. specialize (D frag Hf).
    rewrite E in D. apply Forall_app in D. destruct D as [_ D].
    apply Forall_app in D. tauto.
  - apply strip_ends.
  - apply strip_ends.
  - destruct (proj2 (re_split_pieces text) frag Hf) as (pre & post & Et).
    exists (pre ++ p1), (p2 ++ post).
    rewrite Et. rewrite E at 1. rewrite <- !app_assoc. reflexivity.
Qed.

Lemma sentences_are_trimmed_pieces_witness :
  In (u "ab") (sentences_of (u " ab ៕ cd ។"))
  /\ Forall (fun c => is_delimiter c = false) (u "ab")
  /\ exists pre post, u " ab ៕ cd ។" = pre ++ u "ab" ++ post.
Proof.
  assert (In (u "ab") (sentences_of (u " ab ៕ cd ។"))) as H
      by (vm_compute; left; reflexivity).
  split; [exact H |].
  destruct (sentences_are_trimmed_pieces (u " ab ៕ cd ។") (u "ab") H)
    as (_ & D & _ & _ & P).
  split; [exact D | exact P].
Defined.

(** X18.  The split yields one fragment more than the text has
    delimiters; the fragments concatenated are the text without its
    delimiters; and joined with ។ they give the text back when ៕ does not
    occur in it. *)
Theorem re_split_structure (text : str) :
  List.length (re_split text) = S (List.length (filter is_delimiter text))
  /\ List.concat (re_split text) = filter (fun c => negb (is_delimiter c)) text
  /\ (Forall (fun c => c <> BARIYOOSAN) text ->
      join [KHAN] (re_split text) = text).
Proof.
  induction text as [| c rest (IHl & IHc & IHj)].
  - repeat split.
  - destruct (re_split_cons rest) as (f & fs & E).
    cbn [re_split filter]. rewrite E in *.
    destruct (is_delimiter c) eqn:D; cbn [negb].
    + split; [cbn [List.length] in *; lia |]. split; [exact IHc |].
      intros F. inversion F as [| ? ? Nc Fr]; subst.
      change (join [KHAN] ([] :: f :: fs))
        with (KHAN :: join [KHAN] (f :: fs)).
      rewrite (IHj Fr).
      unfold is_delimiter in D. apply orb_true_iff in D.
      destruct D as [D | D]; apply N.eqb_eq in D; congruence.
    + split; [cbn [List.length] in *; lia |].
      split; [cbn [List.concat app] in *; congruence |].
      intros F. inversion F as [| ? ? Nc Fr]; subst.
      specialize (IHj Fr). rewrite <- IHj.
      destruct fs; reflexivity.
Qed.

Lemma re_split_structure_witness :
  join [KHAN] (re_split (u "ក។។ខ គ។")) = u "ក។។ខ គ។".
Proof.
  refine (proj2 (proj2 (re_split_structure (u "ក។។ខ គ។"))) _).
  vm_compute. repeat (constructor; [discriminate |]). constructor.
Defined.

(** ** Delimiters of the summary *)

Lemma filter_delimiter_free (s : str) :
  Forall (fun c => is_delimiter c = false) s -> filter is_delimiter s = [].
Proof.
  induction 1 as [| c s Hc F IH]; simpl; [reflexivity |].
  rewrite Hc. exact IH.
Qed.

Lemma filter_join_space (parts : list (nat * str)) :
  Forall (fun p => filter is_delimiter (snd p) = [KHAN]) parts ->
  filter is_delimiter (join [SPACE] (map snd parts))
  = repeat KHAN (List.length parts).
Proof.
  induction 1 as [| p rest Hp F IH]; [reflexivity |].
  destruct rest as [| q rest].
  - simpl. exact Hp.
  - change (join [SPACE] (map snd (p :: q :: rest)))
      with (snd p ++ [SPACE] ++ join [SPACE] (map snd (q :: rest))).
    rewrite !filter_app, Hp.
    change (repeat KHAN (List.length (p :: q :: rest)))
      with (KHAN :: repeat KHAN (List.length (q :: rest))).
    change (filter is_delimiter [SPACE]) with (@nil char).
    cbn [app]. f_equal. exact IH.
Qed.

Lemma join_ends (sep : str) (parts : list (nat * str)) (c : char) :
  parts <> [] ->
  Forall (fun p => exists init, snd p = init ++ [c]) parts ->
  exists init, join sep (map snd parts) = init ++ [c].
Proof.
  intros N F. revert N.
  induction F as [| p rest Hp F IH]; intros N;
    [exfalso; apply N; reflexivity |].
  destruct rest as [| q rest].
  - simpl. exact Hp.
  - destruct (IH ltac:(discriminate)) as [init E].
    change (join sep (map snd (p :: q :: rest)))
      with (snd p ++ sep ++ join sep (map snd (q :: rest))).
    exists (snd p ++ sep ++ init).
    rewrite <- !app_assoc. do 2 f_equal. exact E.
Qed.

Lemma sentences_delimiter_free (text : str) :
  Forall (Forall (fun c => is_delimiter c = false)) (sentences_of text).
Proof.
  apply Forall_forall. intros sent H.
  destruct (sentences_of_In _ _ H) as (frag & Hf & -> & _).
  destruct (strip_split frag) as (p1 & p2 & E & _ & _).
  pose proof (re_split_no_delimiter_inside text) as D.
  rewrite Forall_forall in D. specialize (D frag Hf).
  rewrite E in D. apply Forall_app in D. destruct D as [_ D].
  apply Forall_app in D. tauto.
Qed.

(** X19.  A summary made of selected sentences ends with ។ and holds as
    many delimiters as sentences were selected, all of them ។: a sentence
    closed by ៕ in the text is closed by ។ in the summary. *)
Theorem summary_delimiters (text : str) (max_length : Z) (st : selection) :
  select_loop max_length
    (sort_reverse (scored_sentences (sentences_of text))) selection0
  = Ok st ->
  summary_parts st <> [] ->
  exists summary,
    _extractive_summarize text max_length = Ok summary
    /\ filter is_delimiter summary
       = repeat KHAN (List.length (summary_parts st))
    /\ exists init, summary = init ++ [KHAN].
Proof.
  intros L N.
  set (parts := sort_by_index (summary_parts st)).
  assert (Permutation parts (summary_parts st)) as Pp
      by apply sort_by_index_perm.
  assert (Forall (fun p => exists sent,
                      nth_error (sentences_of text) (fst p) = Some sent
                      /\ snd p = sent ++ [KHAN]) parts) as O.
  { apply (Permutation_Forall (Permutation_sym Pp)).
    apply (selected_origin text max_length st L). }
  exists (join [SPACE] (map snd parts)).
  split; [apply (selected_summary text max_length st L N) |]. split.
  - rewrite <- (Permutation_length Pp). apply filter_join_space.
    apply (Forall_impl _ (P := fun p => exists sent,
                      nth_error (sentences_of text) (fst p) = Some sent
                      /\ snd p = sent ++ [KHAN])); [| exact O].
    intros p (sent & Hs & ->). rewrite filter_app.
    pose proof (sentences_delimiter_free text) as D.
    rewrite Forall_forall in D.
    rewrite (filter_delimiter_free sent (D sent (nth_error_In _ _ Hs))).
    reflexivity.
  - apply join_ends.
    + intros E. apply N, Permutation_nil. rewrite <- E. exact Pp.
    + apply (Forall_impl _ (P := fun p => exists sent,
                      nth_error (sentences_of text) (fst p) = Some sent
                      /\ snd p = sent ++ [KHAN])); [| exact O].
      intros p (sent & _ & ->). exists sent. reflexivity.
Qed.

Lemma summary_delimiters_witness :
  exists summary,
    _extractive_summarize (u "ab៕cde៕") 100 = Ok summary
    /\ filter is_delimiter summary = [KHAN; KHAN].
Proof.
  destruct (summary_delimiters (u "ab៕cde៕") 100
              (mkSelection [(1%nat, u "cde។"); (0%nat, u "ab។")] 7)
              ltac:(vm_compute; reflexivity) ltac:(discriminate))
    as (summary & E & F & _).
  exists summary. split; [exact E | exact F].
Defined.

(** ** A request from end to end *)

(** X20.  A request that passes the guards with a [max_length] below
    [2^1023] in magnitude is always answered 200, whatever the state of
    the summarizer; without a model the summary is the extractive one. *)
Theorem valid_request_answered {T : transformers}
  (summarizer : KhmerSummarizer T) (int_of_str : str -> exc Z)
  (items : list (str * json)) (s : str) (max_length min_length : Z) :
  field items (u "text") (JStr []) = JStr s ->
  (10 <= len (strip s))%Z ->
  py_int int_of_str (field items (u "max_length") (JInt 150)) = Ok max_length ->
  py_int int_of_str (field items (u "min_length") (JInt 50)) = Ok min_length ->
  (Z.abs max_length < 2 ^ 1023)%Z ->
  exists summary,
    summarize summarizer s max_length min_length = Ok summary
    /\ api_summarize summarizer int_of_str (mkRequest (Ok (JDict items)))
       = (mkResponse 200 (SummaryBody summary (len s) (len summary)),
          [(s, max_length, min_length)])
    /\ (model summarizer = None ->
        _extractive_summarize s max_length = Ok summary).
Proof.
  intros Ht Hs Hmax Hmin Hr.
  destruct (summarize_returns_in_range summarizer s max_length min_length Hr)
    as [summary E].
  exists summary. split; [exact E |]. split.
  - rewrite (api_summarize_valid summarizer int_of_str items s
               max_length min_length Ht Hs Hmax Hmin), E.
    reflexivity.
  - intros M. unfold summarize in E. rewrite M in E. exact E.
Qed.

Lemma valid_request_answered_witness :
  exists summary,
    api_summarize (mkSummarizer (T := broken_transformers) (Some tt) (Some tt)
                     Cuda)
      int_of_digits
      (mkRequest (Ok (JDict [(u "text", JStr (u "ខ្ញុំចូលចិត្តភាសាខ្មែរ។"));
                             (u "max_length", JStr (u "30"))])))
    = (mkResponse 200
         (SummaryBody summary (len (u "ខ្ញុំចូលចិត្តភាសាខ្មែរ។")) (len summary)),
       [(u "ខ្ញុំចូលចិត្តភាសាខ្មែរ។", 30%Z, 50%Z)]).
Proof.
  destruct (valid_request_answered
              (mkSummarizer (T := broken_transformers) (Some tt) (Some tt) Cuda)
              int_of_digits
              [(u "text", JStr (u "ខ្ញុំចូលចិត្តភាសាខ្មែរ។"));
               (u "max_length", JStr (u "30"))]
              (u "ខ្ញុំចូលចិត្តភាសាខ្មែរ។") 30 50
              ltac:(vm_compute; reflexivity)
              ltac:(vm_compute; discriminate)
              ltac:(vm_compute; reflexivity)
              ltac:(vm_compute; reflexivity)
              ltac:(vm_compute; reflexivity))
    as (summary & _ & A & _).
  exists summary. exact A.
Defined.
